(** * CanaryFS: a shallow embedding of [canaryfs.py] and its properties

    The Python class [CanaryFS] keeps a flat dictionary from path strings to
    [Node] objects, while every directory [Node] keeps a dictionary from child
    names to the very same objects.  Both dictionaries alias the nodes, so the
    embedding has an explicit object store ([heap]) and the dictionaries hold
    addresses.  Every operation is a function from a state to a result and the
    state reached; when Python raises in the middle of a method the state is
    the one reached at the [raise].

    External things are part of the state as an environment: the clock behind
    [time.time()], the lines waiting on standard input, what was printed, the
    records handed to the logger and the process' uid and gid.  Time stamps
    are integers of a fixed resolution (the rounding of floats is outside the
    model); strings are byte strings, so the string methods used by the prompt
    are the ASCII ones. *)

From Stdlib Require Import ZArith Lia Ascii String.
From Stdlib.Init Require Import Byte.
From stdpp Require Import gmap strings list fin_maps sorting.

Open Scope Z_scope.

(** ** Python strings *)

Module PyStr.

Definition code (c : ascii) : Z := Z.of_N (N_of_ascii c).

(** [str.isspace] on ASCII: tab to carriage return, the four separators
    and the blank. *)
Definition is_space (c : ascii) : bool :=
  ((9 <=? code c) && (code c <=? 13)) || ((28 <=? code c) && (code c <=? 32)).

Definition is_digit (c : ascii) : bool :=
  (48 <=? code c) && (code c <=? 57).

Definition lower_char (c : ascii) : ascii :=
  if (65 <=? code c) && (code c <=? 90)
  then ascii_of_N (Z.to_N (code c + 32)) else c.

Fixpoint lstrip (s : string) : string :=
  match s with
  | EmptyString => EmptyString
  | String c r => if is_space c then lstrip r else s
  end.

Fixpoint rstrip (s : string) : string :=
  match s with
  | EmptyString => EmptyString
  | String c r =>
      match rstrip r with
      | EmptyString => if is_space c then EmptyString else String c EmptyString
      | r' => String c r'
      end
  end.

(** [s.strip()] *)
Definition strip (s : string) : string := rstrip (lstrip s).

(** [s.lower()] *)
Fixpoint lower (s : string) : string :=
  match s with
  | EmptyString => EmptyString
  | String c r => String (lower_char c) (lower r)
  end.

Fixpoint all_digits (s : string) : bool :=
  match s with
  | EmptyString => true
  | String c r => is_digit c && all_digits r
  end.

(** [s.isdigit()]: at least one character and only digits. *)
Definition isdigit (s : string) : bool :=
  match s with
  | EmptyString => false
  | _ => all_digits s
  end.

(** [s.endswith(c)] for a one-character suffix. *)
Fixpoint endswith (s : string) (c : ascii) : bool :=
  match s with
  | EmptyString => false
  | String d EmptyString => bool_decide (d = c)
  | String _ r => endswith r c
  end.

(** [s[:-1]] *)
Fixpoint but_last (s : string) : string :=
  match s with
  | EmptyString => EmptyString
  | String _ EmptyString => EmptyString
  | String c r => String c (but_last r)
  end.

Fixpoint int_acc (acc : Z) (s : string) : Z :=
  match s with
  | EmptyString => acc
  | String c r => int_acc (10 * acc + (code c - 48)) r
  end.

(** [int(s)] on a string of digits. *)
Definition int (s : string) : Z := int_acc 0 s.

End PyStr.

(** ** [os.path.split] (posixpath) *)

Module PosixPath.

Definition is_slash (c : ascii) : bool := bool_decide (c = "/"%char).

(** Cut after the last slash: [p[:i], p[i:]] with [i = p.rfind('/') + 1]. *)
Fixpoint cut (p : string) : string * string :=
  match p with
  | EmptyString => (EmptyString, EmptyString)
  | String c r =>
      match cut r with
      | (EmptyString, t) =>
          if is_slash c then (String c EmptyString, t) else (EmptyString, String c t)
      | (h, t) => (String c h, t)
      end
  end.

Fixpoint all_slashes (s : string) : bool :=
  match s with
  | EmptyString => true
  | String c r => is_slash c && all_slashes r
  end.

(** [head.rstrip('/')] *)
Fixpoint rstrip_slash (s : string) : string :=
  match s with
  | EmptyString => EmptyString
  | String c r =>
      match rstrip_slash r with
      | EmptyString => if is_slash c then EmptyString else String c EmptyString
      | r' => String c r'
      end
  end.

Definition split (p : string) : string * string :=
  let (head, tail) := cut p in
  match head with
  | EmptyString => (head, tail)
  | _ => if all_slashes head then (head, tail) else (rstrip_slash head, tail)
  end.

End PosixPath.

(** ** Python sequences: slices of a [bytearray] *)

Module PySeq.
Section Slices.
Context {A : Type}.

(** How a slice bound is clamped for a sequence of [n] elements. *)
Definition bound (n i : Z) : Z :=
  if i <? 0 then Z.max 0 (i + n) else Z.min i n.

Definition len (l : list A) : Z := Z.of_nat (length l).

(** [l[a:b]] *)
Definition slice (l : list A) (a b : Z) : list A :=
  let lo := bound (len l) a in
  let hi := bound (len l) b in
  take (Z.to_nat (hi - lo)) (drop (Z.to_nat lo) l).

(** [l[:b]] *)
Definition prefix (l : list A) (b : Z) : list A := slice l 0 b.

(** [l[a:b] = v] on a bytearray: a bound [b] below [a] is raised to [a]. *)
Definition assign (l : list A) (a b : Z) (v : list A) : list A :=
  let lo := bound (len l) a in
  let hi := Z.max lo (bound (len l) b) in
  take (Z.to_nat lo) l ++ v ++ drop (Z.to_nat hi) l.

(** [x * n] for a one-element sequence; nothing when [n <= 0]. *)
Definition times (x : A) (n : Z) : list A := replicate (Z.to_nat n) x.
End Slices.
End PySeq.

(** ** Data model *)

Abbreviation addr := nat.
Abbreviation bytes := (list byte).

Definition BLOCK_SIZE : Z := 4096.
Definition DEFAULT_CAPACITY : Z := 10 * 1024 * 1024.

(** [stat.S_IFDIR] and [stat.S_IFREG] *)
Definition S_IFDIR : Z := 16384.       (* 0o040000 *)
Definition S_IFREG : Z := 32768.       (* 0o100000 *)
Definition PERM_BITS : Z := 511.       (* 0o777 *)

(** The [errno] values the class raises. *)
Inductive Errno :=
  ENOENT | ENOTDIR | EISDIR | EEXIST | ENOTEMPTY | ENOSPC | EACCES.

(** What a method can raise: [FuseOSError(errno)], or the [KeyError] of a
    [del d[k]] on a missing key. *)
Inductive Exn :=
| FuseOSError (e : Errno)
| KeyError.

Inductive Res (A : Type) :=
| Ok (a : A)
| Raise (e : Exn).
Arguments Ok {A} a.
Arguments Raise {A} e.

(** [@dataclass class Rule] *)
Record Rule := mkRule {
  expires_at : option Z;
  remaining : option Z
}.

(** [class Node]; [children] holds the addresses of the child objects. *)
Record Node := mkNode {
  is_dir : bool;
  mode : Z;
  nlink : Z;
  size : Z;
  atime : Z;
  mtime : Z;
  ctime : Z;
  uid : Z;
  gid : Z;
  children : gmap string addr;
  data : bytes
}.

Global Instance Node_inhabited : Inhabited Node :=
  populate (mkNode false 0 0 0 0 0 0 0 0 ∅ []).

(** The world around the process. *)
Record Env := mkEnv {
  clock : nat -> Z;          (* the successive readings of [time.time()] *)
  ticks : nat;               (* how many readings were taken *)
  stdin : list string;       (* lines still to be read; none left is EOF *)
  stdout : list string;      (* prompts and messages printed, latest first *)
  getuid : Z;
  getgid : Z
}.

(** [class CanaryFS], with the object store and the environment. *)
Record FS := mkFS {
  capacity : Z;
  ask : bool;
  ask_scope : string;
  global_allow_all : bool;
  used : Z;
  fd : Z;
  files : gmap string addr;
  allow_rules : gmap (string * string) Rule;
  log : list string;         (* records given to [self.log.info], latest first *)
  heap : gmap addr Node;
  env : Env
}.

(** Field updates. *)
Definition set_global_allow_all (b : bool) (s : FS) : FS :=
  mkFS (capacity s) (ask s) (ask_scope s) b (used s) (fd s) (files s)
       (allow_rules s) (log s) (heap s) (env s).
Definition set_used (u : Z) (s : FS) : FS :=
  mkFS (capacity s) (ask s) (ask_scope s) (global_allow_all s) u (fd s) (files s)
       (allow_rules s) (log s) (heap s) (env s).
Definition set_fd (n : Z) (s : FS) : FS :=
  mkFS (capacity s) (ask s) (ask_scope s) (global_allow_all s) (used s) n (files s)
       (allow_rules s) (log s) (heap s) (env s).
Definition set_files (f : gmap string addr) (s : FS) : FS :=
  mkFS (capacity s) (ask s) (ask_scope s) (global_allow_all s) (used s) (fd s) f
       (allow_rules s) (log s) (heap s) (env s).
Definition set_allow_rules (r : gmap (string * string) Rule) (s : FS) : FS :=
  mkFS (capacity s) (ask s) (ask_scope s) (global_allow_all s) (used s) (fd s) (files s)
       r (log s) (heap s) (env s).
Definition set_log (l : list string) (s : FS) : FS :=
  mkFS (capacity s) (ask s) (ask_scope s) (global_allow_all s) (used s) (fd s) (files s)
       (allow_rules s) l (heap s) (env s).
Definition set_heap (h : gmap addr Node) (s : FS) : FS :=
  mkFS (capacity s) (ask s) (ask_scope s) (global_allow_all s) (used s) (fd s) (files s)
       (allow_rules s) (log s) h (env s).
Definition set_env (e : Env) (s : FS) : FS :=
  mkFS (capacity s) (ask s) (ask_scope s) (global_allow_all s) (used s) (fd s) (files s)
       (allow_rules s) (log s) (heap s) e.

Definition set_ticks (n : nat) (e : Env) : Env :=
  mkEnv (clock e) n (stdin e) (stdout e) (getuid e) (getgid e).
Definition set_stdin (l : list string) (e : Env) : Env :=
  mkEnv (clock e) (ticks e) l (stdout e) (getuid e) (getgid e).
Definition set_stdout (l : list string) (e : Env) : Env :=
  mkEnv (clock e) (ticks e) (stdin e) l (getuid e) (getgid e).

Definition set_mode (m : Z) (n : Node) : Node :=
  mkNode (is_dir n) m (nlink n) (size n) (atime n) (mtime n) (ctime n)
         (uid n) (gid n) (children n) (data n).
Definition set_nlink (k : Z) (n : Node) : Node :=
  mkNode (is_dir n) (mode n) k (size n) (atime n) (mtime n) (ctime n)
         (uid n) (gid n) (children n) (data n).
Definition set_size (k : Z) (n : Node) : Node :=
  mkNode (is_dir n) (mode n) (nlink n) k (atime n) (mtime n) (ctime n)
         (uid n) (gid n) (children n) (data n).
Definition set_atime (t : Z) (n : Node) : Node :=
  mkNode (is_dir n) (mode n) (nlink n) (size n) t (mtime n) (ctime n)
         (uid n) (gid n) (children n) (data n).
Definition set_mtime (t : Z) (n : Node) : Node :=
  mkNode (is_dir n) (mode n) (nlink n) (size n) (atime n) t (ctime n)
         (uid n) (gid n) (children n) (data n).
Definition set_ctime (t : Z) (n : Node) : Node :=
  mkNode (is_dir n) (mode n) (nlink n) (size n) (atime n) (mtime n) t
         (uid n) (gid n) (children n) (data n).
Definition set_uid (u : Z) (n : Node) : Node :=
  mkNode (is_dir n) (mode n) (nlink n) (size n) (atime n) (mtime n) (ctime n)
         u (gid n) (children n) (data n).
Definition set_gid (g : Z) (n : Node) : Node :=
  mkNode (is_dir n) (mode n) (nlink n) (size n) (atime n) (mtime n) (ctime n)
         (uid n) g (children n) (data n).
Definition set_children (c : gmap string addr) (n : Node) : Node :=
  mkNode (is_dir n) (mode n) (nlink n) (size n) (atime n) (mtime n) (ctime n)
         (uid n) (gid n) c (data n).
Definition set_data (d : bytes) (n : Node) : Node :=
  mkNode (is_dir n) (mode n) (nlink n) (size n) (atime n) (mtime n) (ctime n)
         (uid n) (gid n) (children n) d.

(** ** The monad of methods: state passing with exceptions *)

Definition M (A : Type) : Type := FS -> Res A * FS.

Definition ret {A} (a : A) : M A := fun s => (Ok a, s).
Definition raise {A} (e : Exn) : M A := fun s => (Raise e, s).
Definition bind {A B} (m : M A) (k : A -> M B) : M B :=
  fun s => match m s with
           | (Ok a, s') => k a s'
           | (Raise e, s') => (Raise e, s')
           end.
Definition gets {A} (f : FS -> A) : M A := fun s => (Ok (f s), s).
Definition modify (f : FS -> FS) : M unit := fun s => (Ok tt, f s).

Notation "x <- m ;; k" := (bind m (fun x => k))
  (at level 100, m at next level, right associativity).
Notation "m ;;; k" := (bind m (fun _ => k))
  (at level 100, right associativity).

(** [time.time()]: the next reading of the clock. *)
Definition now_ts : M Z :=
  fun s => (Ok (clock (env s) (ticks (env s))),
            set_env (set_ticks (S (ticks (env s))) (env s)) s).

(** The object at an address.  Python has no dangling reference; at an
    address without an object the lookup gives the inhabitant of [Node], and
    the statements below say where they need an address to be in use. *)
Definition obj (a : addr) (s : FS) : Node := heap s !!! a.
Definition deref (a : addr) : M Node := gets (obj a).

(** In-place update of the object at an address. *)
Definition update (a : addr) (f : Node -> Node) : M unit :=
  modify (fun s => set_heap (alter f a (heap s)) s).

(** [Node(is_dir, mode)]: a new object, at an address not in use. *)
Definition new_Node (isdir : bool) (md : Z) : M addr :=
  ts <- now_ts ;;
  fun s =>
    let a := fresh (dom (heap s)) in
    let n := mkNode isdir md (if isdir then 2 else 1) 0 ts ts ts
                    (getuid (env s)) (getgid (env s)) ∅ [] in
    (Ok a, set_heap (<[a := n]> (heap s)) s).

(** [CanaryFS(capacity, ask, ask_scope)] in a given environment. *)
Definition init (cap : Z) (ask_ : bool) (scope : string) (e : Env) : FS :=
  let s0 := mkFS cap ask_ scope false 0 0 ∅ ∅ [] ∅ e in
  snd ((root <- new_Node true (Z.lor S_IFDIR 493) (* 0o755 *) ;;
        modify (fun s => set_files (<["/" := root]> (files s)) s)) s0).

(** ** [Rule] *)

(** [Rule.allowed]: a timed rule reads the clock. *)
Definition allowed (r : Rule) : M bool :=
  match expires_at r with
  | Some e => now <- now_ts ;; ret (now <=? e)
  | None =>
      match remaining r with
      | Some k => ret (0 <? k)
      | None => ret true
      end
  end.

(** [Rule.consume] *)
Definition consume (r : Rule) : Rule :=
  match remaining r with
  | Some k => if 0 <? k then mkRule (expires_at r) (Some (k - 1)) else r
  | None => r
  end.

(** ** Helpers of [CanaryFS] *)

(** [self.log.info("op=%s path=%s", op, path)] *)
Definition log_info (op path : string) : M unit :=
  modify (fun s => set_log (("op=" +:+ op +:+ " path=" +:+ path) :: log s) s).

Definition print (line : string) : M unit :=
  modify (fun s => set_env (set_stdout (line :: stdout (env s)) (env s)) s).

Definition _split (path : string) : string * string :=
  let (parent, name) := PosixPath.split path in
  match parent with
  | EmptyString => ("/", name)
  | _ => (parent, name)
  end.

Definition _get (path : string) : M addr :=
  fun s => match files s !! path with
           | Some a => (Ok a, s)
           | None => (Raise (FuseOSError ENOENT), s)
           end.

Definition _ensure_parent (path : string) : M (addr * string) :=
  let (parent, name) := _split path in
  pnode <- _get parent ;;
  p <- deref pnode ;;
  if is_dir p then ret (pnode, name) else raise (FuseOSError ENOTDIR).

Definition _ensure_space_delta (delta : Z) : M unit :=
  fun s =>
    if delta <=? 0 then (Ok tt, s)
    else if capacity s <? used s + delta then (Raise (FuseOSError ENOSPC), s)
    else (Ok tt, s).

(** The key of [(op, path)] under a scope. *)
Definition rule_key (scope op path : string) : string * string :=
  if bool_decide (scope = "path") then ("*", path) else (op, path).

Definition _rule_key (op path : string) : M (string * string) :=
  gets (fun s => rule_key (ask_scope s) op path).

Definition prompt_text (op path : string) : string :=
  "[canaryfs] Allow " +:+ op +:+ " " +:+ path +:+ "? (Y/n/a or <Ns>/<N>): ".

Definition usage_text : string :=
  "Enter Y, n, a (allow all), e.g. 10s for seconds, or 10 for count.".

(** One turn of the prompt loop once the answer is known; [again] is the
    next turn of the loop. *)
Definition answer (key : string * string) (ans : string) (again : M unit) : M unit :=
  if bool_decide (ans = "") || bool_decide (PyStr.lower ans = "y") then ret tt
  else if bool_decide (PyStr.lower ans = "a") then
    modify (set_global_allow_all true)
  else if bool_decide (PyStr.lower ans = "n") then raise (FuseOSError EACCES)
  else if PyStr.endswith ans "s" && PyStr.isdigit (PyStr.but_last ans) then
    let seconds := PyStr.int (PyStr.but_last ans) in
    now <- now_ts ;;
    modify (fun s => set_allow_rules
                       (<[key := mkRule (Some (now + seconds)) None]> (allow_rules s)) s)
  else if PyStr.isdigit ans then
    let count := PyStr.int ans in
    modify (fun s => set_allow_rules
                       (<[key := mkRule None (Some count)]> (allow_rules s)) s)
  else print usage_text ;;; again.

(** The [while True] loop around [input]; it runs over the lines waiting on
    standard input, and the end of input is the [EOFError] that the code
    turns into the answer [n]. *)
Fixpoint prompt_loop (op path : string) (key : string * string) (lines : list string)
  : M unit :=
  print (prompt_text op path) ;;;
  match lines with
  | [] => answer key "n" (ret tt)
  | line :: rest =>
      modify (fun s => set_env (set_stdin rest (env s)) s) ;;;
      answer key (PyStr.strip line) (prompt_loop op path key rest)
  end.

Definition _check_and_prompt (op path : string) : M unit :=
  log_info op path ;;;
  asking <- gets ask ;;
  all <- gets global_allow_all ;;
  if negb asking || all then ret tt
  else
    key <- _rule_key op path ;;
    rules <- gets allow_rules ;;
    let prompting := lines <- gets (fun s => stdin (env s)) ;;
                     prompt_loop op path key lines in
    match rules !! key with
    | Some rule =>
        ok <- allowed rule ;;
        if ok then
          modify (fun s => set_allow_rules (<[key := consume rule]> (allow_rules s)) s)
        else
          modify (fun s => set_allow_rules (delete key (allow_rules s)) s) ;;;
          prompting
    | None => prompting
    end.

(** ** What the FUSE operations return *)

Record Stat := mkStat {
  st_mode : Z; st_nlink : Z; st_size : Z;
  st_ctime : Z; st_mtime : Z; st_atime : Z;
  st_uid : Z; st_gid : Z
}.

Record StatVfs := mkStatVfs {
  f_bsize : Z; f_frsize : Z; f_blocks : Z;
  f_bfree : Z; f_bavail : Z; f_namemax : Z
}.

(** ** Dictionary statements that can raise *)

(** [del node.children[name]] *)
Definition del_child (a : addr) (name : string) : M unit :=
  n <- deref a ;;
  match children n !! name with
  | Some _ => update a (fun n => set_children (delete name (children n)) n)
  | None => raise KeyError
  end.

(** [del self.files[path]] *)
Definition del_file (path : string) : M unit :=
  fun s => match files s !! path with
           | Some _ => (Ok tt, set_files (delete path (files s)) s)
           | None => (Raise KeyError, s)
           end.

(** [node.mtime = node.ctime = ts] *)
Definition touch_mc (a : addr) (ts : Z) : M unit :=
  update a (fun n => set_ctime ts (set_mtime ts n)).

Definition str_le (a b : string) : Prop := Is_true (String.leb a b).

(** [sorted(d.keys())] *)
Definition sorted_keys (d : gmap string addr) : list string :=
  merge_sort str_le (map fst (map_to_list d)).

(** ** FUSE operations *)

Definition access (path : string) (amode : Z) : M Z :=
  _check_and_prompt "access" path ;;;
  node <- _get path ;;
  ret 0.

Definition getattr (path : string) : M Stat :=
  _check_and_prompt "getattr" path ;;;
  node <- _get path ;;
  n <- deref node ;;
  ret (mkStat (mode n) (nlink n) (size n) (ctime n) (mtime n) (atime n) (uid n) (gid n)).

Definition readdir (path : string) : M (list string) :=
  _check_and_prompt "readdir" path ;;;
  node <- _get path ;;
  n <- deref node ;;
  if is_dir n then ret ("." :: ".." :: sorted_keys (children n))
  else raise (FuseOSError ENOTDIR).

Definition mkdir (path : string) (md : Z) : M unit :=
  _check_and_prompt "mkdir" path ;;;
  pn <- _ensure_parent path ;;
  let (parent_node, name) := pn in
  p <- deref parent_node ;;
  match children p !! name with
  | Some _ => raise (FuseOSError EEXIST)
  | None =>
      node <- new_Node true (Z.lor S_IFDIR (Z.land md PERM_BITS)) ;;
      update parent_node (fun n => set_children (<[name := node]> (children n)) n) ;;;
      modify (fun s => set_files (<[path := node]> (files s)) s) ;;;
      update parent_node (fun n => set_nlink (nlink n + 1) n) ;;;
      ts <- now_ts ;;
      touch_mc parent_node ts
  end.

Definition rmdir (path : string) : M unit :=
  _check_and_prompt "rmdir" path ;;;
  node <- _get path ;;
  n <- deref node ;;
  if negb (is_dir n) then raise (FuseOSError ENOTDIR)
  else if negb (bool_decide (children n = ∅)) then raise (FuseOSError ENOTEMPTY)
  else
    pn <- _ensure_parent path ;;
    let (parent_node, name) := pn in
    del_child parent_node name ;;;
    del_file path ;;;
    update parent_node (fun n => set_nlink (nlink n - 1) n) ;;;
    ts <- now_ts ;;
    touch_mc parent_node ts.

Definition unlink (path : string) : M unit :=
  _check_and_prompt "unlink" path ;;;
  node <- _get path ;;
  n <- deref node ;;
  if is_dir n then raise (FuseOSError EISDIR)
  else
    pn <- _ensure_parent path ;;
    let (parent_node, name) := pn in
    del_child parent_node name ;;;
    del_file path ;;;
    n <- deref node ;;
    modify (fun s => set_used (used s - size n) s) ;;;
    ts <- now_ts ;;
    touch_mc parent_node ts.

Definition rename (old new : string) : M unit :=
  _check_and_prompt "rename" old ;;;
  _check_and_prompt "rename" new ;;;
  node <- _get old ;;
  po <- _ensure_parent old ;;
  let (old_parent, old_name) := po in
  pn <- _ensure_parent new ;;
  let (new_parent, new_name) := pn in
  np <- deref new_parent ;;
  match children np !! new_name with
  | Some target =>
      t <- deref target ;;
      if is_dir t then raise (FuseOSError EISDIR)
      else
        del_child new_parent new_name ;;;
        del_file new ;;;
        t <- deref target ;;
        modify (fun s => set_used (used s - size t) s)
  | None => ret tt
  end ;;;
  del_child old_parent old_name ;;;
  update new_parent (fun n => set_children (<[new_name := node]> (children n)) n) ;;;
  del_file old ;;;
  modify (fun s => set_files (<[new := node]> (files s)) s) ;;;
  now <- now_ts ;;
  touch_mc old_parent now ;;;
  touch_mc new_parent now.

Definition open (path : string) (flags : Z) : M Z :=
  _check_and_prompt "open" path ;;;
  _get path ;;;
  modify (fun s => set_fd (fd s + 1) s) ;;;
  gets fd.

Definition create (path : string) (md : Z) : M Z :=
  _check_and_prompt "create" path ;;;
  pn <- _ensure_parent path ;;
  let (parent_node, name) := pn in
  p <- deref parent_node ;;
  match children p !! name with
  | Some _ => raise (FuseOSError EEXIST)
  | None =>
      node <- new_Node false (Z.lor S_IFREG (Z.land md PERM_BITS)) ;;
      update parent_node (fun n => set_children (<[name := node]> (children n)) n) ;;;
      modify (fun s => set_files (<[path := node]> (files s)) s) ;;;
      ts <- now_ts ;;
      touch_mc parent_node ts ;;;
      modify (fun s => set_fd (fd s + 1) s) ;;;
      gets fd
  end.

Definition read (path : string) (sz offset : Z) : M bytes :=
  _check_and_prompt "read" path ;;;
  node <- _get path ;;
  n <- deref node ;;
  if is_dir n then raise (FuseOSError EISDIR)
  else
    let dat := PySeq.slice (data n) offset (offset + sz) in
    ts <- now_ts ;;
    update node (set_atime ts) ;;;
    ret dat.

Definition write (path : string) (dat : bytes) (offset : Z) : M Z :=
  _check_and_prompt "write" path ;;;
  node <- _get path ;;
  n <- deref node ;;
  if is_dir n then raise (FuseOSError EISDIR)
  else
    let endpos := offset + PySeq.len dat in
    let prev_size := size n in
    let new_size := Z.max prev_size endpos in
    let delta := new_size - prev_size in
    _ensure_space_delta delta ;;;
    (if PySeq.len (data n) <? new_size then
       update node (fun n => set_data
          (data n ++ PySeq.times x00 (new_size - PySeq.len (data n))) n)
     else ret tt) ;;;
    update node (fun n => set_data (PySeq.assign (data n) offset endpos dat) n) ;;;
    update node (set_size new_size) ;;;
    modify (fun s => set_used (used s + delta) s) ;;;
    ts <- now_ts ;;
    update node (set_mtime ts) ;;;
    update node (set_atime ts) ;;;
    ret (PySeq.len dat).

Definition truncate (path : string) (length : Z) : M unit :=
  _check_and_prompt "truncate" path ;;;
  node <- _get path ;;
  n <- deref node ;;
  if is_dir n then raise (FuseOSError EISDIR)
  else
    (if length <? size n then
       let delta := size n - length in
       update node (fun n => set_data (PySeq.prefix (data n) length) n) ;;;
       update node (set_size length) ;;;
       modify (fun s => set_used (used s - delta) s)
     else if size n <? length then
       let delta := length - size n in
       _ensure_space_delta delta ;;;
       update node (fun n => set_data (data n ++ PySeq.times x00 delta) n) ;;;
       update node (set_size length) ;;;
       modify (fun s => set_used (used s + delta) s)
     else ret tt) ;;;
    ts <- now_ts ;;
    update node (set_mtime ts).

Definition utimens (path : string) (times : option (Z * Z)) : M unit :=
  _check_and_prompt "utimens" path ;;;
  node <- _get path ;;
  am <- match times with
        | Some t => ret t
        | None => a <- now_ts ;; m <- now_ts ;; ret (a, m)
        end ;;
  update node (set_atime (fst am)) ;;;
  update node (set_mtime (snd am)).

Definition chmod (path : string) (md : Z) : M Z :=
  _check_and_prompt "chmod" path ;;;
  node <- _get path ;;
  update node (fun n => set_mode (Z.lor (Z.land (mode n) (Z.lnot PERM_BITS))
                                    (Z.land md PERM_BITS)) n) ;;;
  ts <- now_ts ;;
  update node (set_ctime ts) ;;;
  ret 0.

Definition chown (path : string) (u g : Z) : M Z :=
  _check_and_prompt "chown" path ;;;
  node <- _get path ;;
  update node (set_uid u) ;;;
  update node (set_gid g) ;;;
  ts <- now_ts ;;
  update node (set_ctime ts) ;;;
  ret 0.

Definition statfs (path : string) : M StatVfs :=
  log_info "statfs" path ;;;
  cap <- gets capacity ;;
  u <- gets used ;;
  let blocks_total := cap / BLOCK_SIZE in
  let blocks_free := (cap - u) / BLOCK_SIZE in
  ret (mkStatVfs BLOCK_SIZE BLOCK_SIZE blocks_total blocks_free blocks_free 255).

(** ** Calls delivered by the FUSE binding *)

Inductive Call :=
| Access (path : string) (amode : Z)
| Getattr (path : string)
| Readdir (path : string)
| Mkdir (path : string) (md : Z)
| Rmdir (path : string)
| Unlink (path : string)
| Rename (old new : string)
| Open (path : string) (flags : Z)
| Create (path : string) (md : Z)
| Read (path : string) (sz offset : Z)
| Write (path : string) (dat : bytes) (offset : Z)
| Truncate (path : string) (length : Z)
| Utimens (path : string) (times : option (Z * Z))
| Chmod (path : string) (md : Z)
| Chown (path : string) (u g : Z)
| Statfs (path : string).

Inductive Value :=
| VNone
| VInt (z : Z)
| VBytes (b : bytes)
| VNames (l : list string)
| VStat (st : Stat)
| VStatVfs (st : StatVfs).

Definition fmap_M {A B} (f : A -> B) (m : M A) : M B := a <- m ;; ret (f a).

Definition call (c : Call) : M Value :=
  match c with
  | Access p m => fmap_M VInt (access p m)
  | Getattr p => fmap_M VStat (getattr p)
  | Readdir p => fmap_M VNames (readdir p)
  | Mkdir p m => fmap_M (fun _ => VNone) (mkdir p m)
  | Rmdir p => fmap_M (fun _ => VNone) (rmdir p)
  | Unlink p => fmap_M (fun _ => VNone) (unlink p)
  | Rename o n => fmap_M (fun _ => VNone) (rename o n)
  | Open p f => fmap_M VInt (open p f)
  | Create p m => fmap_M VInt (create p m)
  | Read p n o => fmap_M VBytes (read p n o)
  | Write p d o => fmap_M VInt (write p d o)
  | Truncate p n => fmap_M (fun _ => VNone) (truncate p n)
  | Utimens p t => fmap_M (fun _ => VNone) (utimens p t)
  | Chmod p m => fmap_M VInt (chmod p m)
  | Chown p u g => fmap_M VInt (chown p u g)
  | Statfs p => fmap_M VStatVfs (statfs p)
  end.

(** The state after a call, whether it returned or raised: the binding
    reports the error and goes on serving. *)
Definition step (s : FS) (c : Call) : FS := snd (call c s).

(** The state after a sequence of calls. *)
Definition run (s : FS) (cs : list Call) : FS := fold_left step cs s.

(** * Specification vocabulary *)

(** [path] resolves to the object [n], stored at address [a]. *)
Definition resolves (s : FS) (path : string) (a : addr) (n : Node) : Prop :=
  files s !! path = Some a /\ heap s !! a = Some n.

(** The rule engine lets [(op, path)] through; [after_check] is the state in
    which the operation then starts. *)
Definition authorized (op path : string) (s : FS) : Prop :=
  fst (_check_and_prompt op path s) = Ok tt.

Definition after_check (op path : string) (s : FS) : FS :=
  snd (_check_and_prompt op path s).

(** An action keeps a relation between the states before and after it. *)
Definition preserves (R : relation FS) {A} (m : M A) : Prop :=
  forall s, R s (snd (m s)).

(** The node store is the same in both states. *)
Definition same_store (s s' : FS) : Prop :=
  capacity s' = capacity s /\ used s' = used s /\ fd s' = fd s /\
  files s' = files s /\ heap s' = heap s /\
  ask s' = ask s /\ ask_scope s' = ask_scope s.

(** The allow-all flag, once set, is still set. *)
Definition flag_kept (s s' : FS) : Prop :=
  global_allow_all s = true -> global_allow_all s' = true.

(** Nothing was read from standard input and nothing printed. *)
Definition quiet (s s' : FS) : Prop :=
  stdin (env s') = stdin (env s) /\ stdout (env s') = stdout (env s).

(** Output is only ever added. *)
Definition printed_more (s s' : FS) : Prop :=
  exists out, stdout (env s') = out ++ stdout (env s).

(** [Rule.allowed] as a function of the state, without the clock tick. *)
Definition rule_valid (r : Rule) (s : FS) : bool :=
  match expires_at r with
  | Some e => clock (env s) (ticks (env s)) <=? e
  | None =>
      match remaining r with
      | Some k => 0 <? k
      | None => true
      end
  end.

(** A check of [(op, path)] in this state reaches the prompt. *)
Definition must_prompt (op path : string) (s : FS) : Prop :=
  ask s = true /\ global_allow_all s = false /\
  match allow_rules s !! rule_key (ask_scope s) op path with
  | Some r => rule_valid r s = false
  | None => True
  end.

(** Successive authorization checks, stopping at the first denial. *)
Fixpoint checks (l : list (string * string)) : M unit :=
  match l with
  | [] => ret tt
  | c :: r => _check_and_prompt (fst c) (snd c) ;;; checks r
  end.

(** The bytes a file node accounts for; a directory accounts for none. *)
Definition fsize (h : gmap addr Node) (a : addr) : Z :=
  match h !! a with
  | Some n => if is_dir n then 0 else size n
  | None => 0
  end.

Definition sum_sizes (f : gmap string addr) (h : gmap addr Node) : Z :=
  foldr Z.add 0 (map (fun pa => fsize h (snd pa)) (map_to_list f)).

(** The sum of the sizes of all file nodes of the store. *)
Definition total_size (s : FS) : Z := sum_sizes (files s) (heap s).

(** Paths handed over by the binding start at the root. *)
Definition absolute (p : string) : Prop :=
  match p with
  | String c _ => c = "/"%char
  | EmptyString => False
  end.

(** The calls of the accounting claim, as the binding delivers them:
    absolute paths, and a length that is not negative.  Every operation but
    [mkdir] is in. *)
Definition accounting_call (c : Call) : Prop :=
  match c with
  | Mkdir _ _ => False
  | Truncate p n => absolute p /\ 0 <= n
  | Rename o n => absolute o /\ absolute n
  | Create p _ | Unlink p | Rmdir p | Write p _ _
  | Access p _ | Getattr p | Readdir p | Open p _ | Read p _ _
  | Utimens p _ | Chmod p _ | Chown p _ _ | Statfs p => absolute p
  end.

(** The invariant of a store that never saw [mkdir]: the path map is
    injective and points to live objects, the counter is the sum of the file
    sizes and within the capacity, and the only directory a path can reach is
    the root, whose child table is the path map read without the leading
    slash. *)
Record StoreInv (cap u : Z) (f : gmap string addr) (h : gmap addr Node) : Prop :=
  mkStoreInv {
  inv_live : forall p a, f !! p = Some a -> is_Some (h !! a);
  inv_inj : forall p q a, f !! p = Some a -> f !! q = Some a -> p = q;
  inv_used : u = sum_sizes f h;
  inv_cap : u <= cap;
  inv_nonneg : forall p a n,
    f !! p = Some a -> h !! a = Some n -> is_dir n = false -> 0 <= size n;
  inv_dir : forall p a n,
    f !! p = Some a -> h !! a = Some n -> is_dir n = true ->
    p = "/" /\
    (forall name c, children n !! name = Some c ->
                    name <> "" /\ f !! ("/" +:+ name) = Some c) /\
    (forall q c, f !! q = Some c -> q <> "/" ->
                 exists name, q = "/" +:+ name /\ children n !! name = Some c)
}.

Definition Inv (s : FS) : Prop :=
  StoreInv (capacity s) (used s) (files s) (heap s).

(** The child directories of a node, and the link count rule. *)
Definition child_dirs (s : FS) (n : Node) : list (string * addr) :=
  filter (fun e => is_dir (obj (snd e) s) = true) (map_to_list (children n)).

Definition link_count_ok (s : FS) (n : Node) : Prop :=
  nlink n = 2 + Z.of_nat (length (child_dirs s n)).

(** ** A concrete environment and a few stores, for the examples *)

Definition env0 : Env := mkEnv (fun n => 100 + Z.of_nat n) 0 [] [] 1000 1000.

Definition env_answers (lines : list string) : Env :=
  mkEnv (fun n => 100 + Z.of_nat n) 0 lines [] 1000 1000.

Definition abc : bytes := [x61; x62; x63].
Definition digits10 : bytes := [x30; x31; x32; x33; x34; x35; x36; x37; x38; x39].

(** A 20-byte store without prompts. *)
Definition store20 : FS := init 20 false "op" env0.

(** [/f] holding three bytes. *)
Definition store_f : FS := run store20 [Create "/f" 420; Write "/f" abc 0].

(** [/f] and an empty directory [/d]. *)
Definition store_fd : FS := run store_f [Mkdir "/d" 493].

(** Three directories: [/a], [/b] and [/a/d]. *)
Definition store_dirs : FS :=
  run store20 [Mkdir "/a" 493; Mkdir "/b" 493; Mkdir "/a/d" 493].

(** Every directory a path resolves to obeys the link count rule. *)
Definition link_counts_ok (s : FS) : Prop :=
  forall p a n, resolves s p a n -> is_dir n = true -> link_count_ok s n.

(** A store with prompts whose first prompt was answered [a]. *)
Definition store_allow_all : FS :=
  after_check "getattr" "/" (init 20 true "op" (env_answers ["a"])).

(** A store with prompts; the answers waiting are [3] and [y]. *)
Definition store_asking : FS := init 20 true "op" (env_answers ["3"; "y"]).

(** An action keeps the invariant. *)
Definition inv_kept (s s' : FS) : Prop := Inv s -> Inv s'.

(** A directory renamed and made again, with a file made in it again. *)
Definition store_remade : FS :=
  run store20 [Mkdir "/d" 493; Create "/d/f" 420; Write "/d/f" abc 0;
               Rename "/d" "/e"; Mkdir "/d" 493; Create "/d/f" 420].

(** What a metadata operation on the node [n] at [a] may not change. *)
Definition metadata_frame (s s' : FS) (path : string) (a : addr) (n n' : Node)
  : Prop :=
  resolves s' path a n' /\
  is_dir n' = is_dir n /\ size n' = size n /\ data n' = data n /\
  children n' = children n /\ nlink n' = nlink n /\
  used s' = used s /\ capacity s' = capacity s /\ files s' = files s /\
  (forall b, b <> a -> heap s' !! b = heap s !! b).

(** A relative path next to an absolute one for the same name. *)
Definition store_relative : FS :=
  run store20 [Create "f" 420; Write "f" abc 0; Create "/x" 420;
               Rename "/x" "/f"; Create "f" 420].

(** A truncation to a negative length. *)
Definition store_negative : FS :=
  run store20 [Create "/a" 420; Truncate "/a" (-5); Create "/b" 420;
               Write "/b" (replicate 25 x61) 0; Unlink "/a"].

(** * Proofs *)

(** ** Running the monad *)

Lemma bind_ok {A B} (m : M A) (k : A -> M B) s a s' :
  m s = (Ok a, s') -> bind m k s = k a s'.
Proof. intros H. unfold bind. by rewrite H. Qed.

Lemma bind_raise {A B} (m : M A) (k : A -> M B) s e s' :
  m s = (Raise e, s') -> bind m k s = (Raise e, s').
Proof. intros H. unfold bind. by rewrite H. Qed.

Lemma check_split op path s :
  authorized op path s ->
  _check_and_prompt op path s = (Ok tt, after_check op path s).
Proof.
  unfold authorized, after_check.
  destruct (_check_and_prompt op path s) as [r s1]. simpl. by intros ->.
Qed.

Lemma get_found path s a : files s !! path = Some a -> _get path s = (Ok a, s).
Proof. intros H. unfold _get. by rewrite H. Qed.

Lemma get_missing path s :
  files s !! path = None -> _get path s = (Raise (FuseOSError ENOENT), s).
Proof. intros H. unfold _get. by rewrite H. Qed.

Lemma obj_found a s n : heap s !! a = Some n -> obj a s = n.
Proof. intros H. unfold obj. by apply lookup_total_correct. Qed.

(** ** Actions that keep a relation *)

Section Preserves.
Context (R : relation FS) `{!PreOrder R}.

Lemma preserves_ret {A} (a : A) : preserves R (ret a).
Proof. intros s. reflexivity. Qed.

Lemma preserves_raise {A} e : preserves R (@raise A e).
Proof. intros s. reflexivity. Qed.

Lemma preserves_gets {A} (f : FS -> A) : preserves R (gets f).
Proof. intros s. reflexivity. Qed.

Lemma preserves_bind {A B} (m : M A) (k : A -> M B) :
  preserves R m -> (forall a, preserves R (k a)) -> preserves R (bind m k).
Proof.
  intros Hm Hk s. unfold bind. specialize (Hm s).
  destruct (m s) as [[a|e] s1]; simpl in *; [|done].
  etrans; [exact Hm|]. apply Hk.
Qed.

Lemma preserves_modify f : (forall s, R s (f s)) -> preserves R (modify f).
Proof. intros H s. apply H. Qed.

Lemma preserves_get path : preserves R (_get path).
Proof. intros s. unfold _get. destruct (files s !! path); reflexivity. Qed.

Lemma preserves_space delta : preserves R (_ensure_space_delta delta).
Proof.
  intros s. unfold _ensure_space_delta.
  destruct (delta <=? 0); [reflexivity|].
  destruct (capacity s <? used s + delta); reflexivity.
Qed.

Lemma preserves_fmap {A B} (f : A -> B) (m : M A) :
  preserves R m -> preserves R (fmap_M f m).
Proof. intros H. apply preserves_bind; [done|]. intros a. apply preserves_ret. Qed.

End Preserves.

(** One step of a preservation proof: split a bind, or a case of the code. *)
Ltac pres_step :=
  match goal with
  | |- preserves _ (bind _ _) => apply preserves_bind; [try apply _ | | intros ?]
  | |- preserves _ (ret _) => apply preserves_ret; apply _
  | |- preserves _ (raise _) => apply preserves_raise; apply _
  | |- preserves _ (gets _) => apply preserves_gets; apply _
  | |- preserves _ (deref _) => apply preserves_gets; apply _
  | |- preserves _ (_rule_key _ _) => apply preserves_gets; apply _
  | |- preserves _ (_get _) => apply preserves_get; apply _
  | |- preserves _ (_ensure_space_delta _) => apply preserves_space; apply _
  | |- preserves _ (fmap_M _ _) => apply preserves_fmap; [apply _|]
  | |- preserves _ (match ?x with _ => _ end) => destruct x
  end.

(** ** The rule engine does not touch the node store *)

Global Instance same_store_preorder : PreOrder same_store.
Proof.
  split.
  - intros s. unfold same_store. tauto.
  - intros s1 s2 s3 H1 H2. unfold same_store in *.
    destruct H1 as (?&?&?&?&?&?&?), H2 as (?&?&?&?&?&?&?).
    repeat split; congruence.
Qed.

Ltac same_store_prim :=
  first [ apply preserves_modify; [apply _|] | idtac ];
  intros s; unfold same_store; simpl; tauto.

Lemma now_ts_same_store : preserves same_store now_ts.
Proof. same_store_prim. Qed.

Lemma answer_same_store key ans again :
  preserves same_store again -> preserves same_store (answer key ans again).
Proof.
  intros H. unfold answer, print.
  repeat first [ pres_step | apply now_ts_same_store | exact H | same_store_prim ].
Qed.

Lemma prompt_loop_same_store op path key lines :
  preserves same_store (prompt_loop op path key lines).
Proof.
  induction lines as [|line rest IH]; simpl; unfold print.
  - pres_step; [same_store_prim|]. apply answer_same_store. pres_step.
  - pres_step; [same_store_prim|]. pres_step; [same_store_prim|].
    by apply answer_same_store.
Qed.

Lemma check_same_store op path : preserves same_store (_check_and_prompt op path).
Proof.
  unfold _check_and_prompt, log_info, allowed.
  repeat first [ pres_step | apply now_ts_same_store | apply prompt_loop_same_store
               | same_store_prim ].
Qed.

Lemma after_check_store op path s : same_store s (after_check op path s).
Proof. apply check_same_store. Qed.

Lemma after_check_resolves op path s p a n :
  resolves s p a n -> resolves (after_check op path s) p a n.
Proof.
  destruct (after_check_store op path s) as (_&_&_&Hf&Hh&_).
  unfold resolves. by rewrite Hf, Hh.
Qed.

(** ** [write] on a file *)

Section Write.
Variables (path : string) (dat : bytes) (off : Z) (s : FS) (a : addr) (n : Node).
Hypothesis Hau : authorized "write" path s.
Hypothesis Hres : resolves s path a n.
Hypothesis Hfile : is_dir n = false.

Let new_size := Z.max (size n) (off + PySeq.len dat).
Let delta := new_size - size n.

(** The buffer of the node once it is long enough and the bytes are in. *)
Let new_data :=
  PySeq.assign
    (if PySeq.len (data n) <? new_size
     then data n ++ PySeq.times x00 (new_size - PySeq.len (data n))
     else data n) off (off + PySeq.len dat) dat.

Lemma write_no_space :
  0 < delta -> capacity s < used s + delta ->
  write path dat off s =
  (Raise (FuseOSError ENOSPC), after_check "write" path s).
Proof.
  intros Hpos Hfull.
  pose proof (after_check_resolves "write" path s _ _ _ Hres) as [Hf1 Hh1].
  destruct (after_check_store "write" path s) as (Hcap&Hused&_).
  unfold write.
  rewrite (bind_ok _ _ _ _ _ (check_split _ _ _ Hau)).
  rewrite (bind_ok _ _ _ _ _ (get_found _ _ _ Hf1)).
  unfold bind at 1. unfold deref, gets. rewrite (obj_found _ _ _ Hh1), Hfile.
  fold new_size. fold delta.
  unfold bind at 1. unfold _ensure_space_delta. rewrite Hcap, Hused.
  destruct (Z.leb_spec delta 0); [lia|].
  destruct (Z.ltb_spec (capacity s) (used s + delta)); [done|lia].
Qed.

Lemma write_success :
  ~ (0 < delta /\ capacity s < used s + delta) ->
  exists s2 n2,
    write path dat off s = (Ok (PySeq.len dat), s2) /\
    resolves s2 path a n2 /\ is_dir n2 = false /\ size n2 = new_size /\
    children n2 = children n /\ data n2 = new_data /\
    used s2 = used s + delta /\ capacity s2 = capacity s /\ files s2 = files s /\
    (forall b, b <> a -> heap s2 !! b = heap s !! b).
Proof.
  intros Hfits.
  pose proof (after_check_resolves "write" path s _ _ _ Hres) as [Hf1 Hh1].
  destruct (after_check_store "write" path s) as (Hcap&Hused&_&Hfiles&Hheap&_).
  unfold write.
  rewrite (bind_ok _ _ _ _ _ (check_split _ _ _ Hau)).
  rewrite (bind_ok _ _ _ _ _ (get_found _ _ _ Hf1)).
  set (s1 := after_check "write" path s) in *.
  unfold bind at 1. unfold deref, gets. rewrite (obj_found _ _ _ Hh1), Hfile.
  unfold new_data. fold new_size. fold delta.
  unfold bind at 1. unfold _ensure_space_delta. rewrite Hcap, Hused.
  assert ((if delta <=? 0 then (Ok tt, s1)
           else if capacity s <? used s + delta
                then (Raise (FuseOSError ENOSPC), s1)
                else (Ok tt, s1)) = (Ok tt, s1)) as ->.
  { destruct (Z.leb_spec delta 0); [done|].
    destruct (Z.ltb_spec (capacity s) (used s + delta)); [|done]. lia. }
  destruct (PySeq.len (data n) <? new_size);
    cbv beta iota delta [bind ret modify update now_ts]; simpl;
    (eexists _, _; split; [reflexivity|]; unfold resolves; simpl;
     rewrite !lookup_alter_eq, Hh1; simpl;
     repeat split; try done; try lia; try congruence;
     intros b Hb; rewrite !lookup_alter_ne by done; congruence).
Qed.

End Write.

(** C2. A write on an existing file leaves it with the size
    [max(old size, offset + len(bytes))].  Only the increase of the size is
    checked against the capacity: a write that does not grow the file never
    fails for space, one whose increase would take [used] above [capacity]
    fails with ENOSPC, and every other one adds exactly the increase to
    [used]. *)
Theorem write_size_and_space path dat off s a n :
  authorized "write" path s -> resolves s path a n -> is_dir n = false ->
  let new_size := Z.max (size n) (off + PySeq.len dat) in
  let delta := new_size - size n in
  (0 < delta -> capacity s < used s + delta ->
   fst (write path dat off s) = Raise (FuseOSError ENOSPC)) /\
  (~ (0 < delta /\ capacity s < used s + delta) ->
   exists s2 n2,
     write path dat off s = (Ok (PySeq.len dat), s2) /\
     resolves s2 path a n2 /\ size n2 = new_size /\
     used s2 = used s + delta) /\
  (off + PySeq.len dat <= size n ->
   exists s2, write path dat off s = (Ok (PySeq.len dat), s2) /\
              used s2 = used s) /\
  (used s <= capacity s -> capacity s < used s + delta ->
   fst (write path dat off s) = Raise (FuseOSError ENOSPC)).
Proof.
  intros Hau Hres Hfile new_size delta. repeat split.
  - intros Hpos Hfull.
    pose proof (write_no_space path dat off s a n Hau Hres Hfile Hpos Hfull) as Hw.
    by rewrite Hw.
  - intros Hfits.
    destruct (write_success path dat off s a n Hau Hres Hfile Hfits)
      as (s2 & n2 & Hw & Hr & _ & Hsz & _ & _ & Hu & _).
    by exists s2, n2.
  - intros Hshort.
    assert (delta = 0) as Hd by (unfold delta, new_size; lia).
    destruct (write_success path dat off s a n Hau Hres Hfile)
      as (s2 & n2 & Hw & _ & _ & _ & _ & _ & Hu & _).
    { fold new_size. fold delta. lia. }
    exists s2. split; [done|]. fold new_size in Hu. fold delta in Hu. lia.
  - intros Hinv Hfull.
    assert (0 < delta) as Hpos by lia.
    pose proof (write_no_space path dat off s a n Hau Hres Hfile Hpos Hfull) as Hw.
    by rewrite Hw.
Qed.

Lemma store_f_resolves : resolves store_f "/f" 1%nat (obj 1%nat store_f).
Proof. split; vm_compute; reflexivity. Qed.

Lemma store_f_authorized op path : authorized op path store_f.
Proof. reflexivity. Qed.

Lemma write_size_and_space_witness :
  fst (write "/f" digits10 11 store_f) = Raise (FuseOSError ENOSPC).
Proof.
  apply (write_size_and_space "/f" digits10 11 store_f 1%nat (obj 1%nat store_f)).
  - reflexivity.
  - split; vm_compute; reflexivity.
  - reflexivity.
  - vm_compute; discriminate.
  - vm_compute; reflexivity.
Defined.

(** The example of the specification: 20 bytes of capacity, two writes of
    ten bytes fill the store and one more byte is refused. *)
Example write_example_20_bytes :
  let s1 := step store20 (Create "/f" 420) in
  let s2 := step s1 (Write "/f" digits10 0) in
  let s3 := step s2 (Write "/f" digits10 10) in
  fst (call (Write "/f" digits10 0) s1) = Ok (VInt 10) /\ used s2 = 10 /\
  fst (call (Write "/f" digits10 10) s2) = Ok (VInt 10) /\ used s3 = 20 /\
  fst (call (Write "/f" [x78] 20) s3) = Raise (FuseOSError ENOSPC) /\
  used (step s3 (Write "/f" [x78] 20)) = 20.
Proof. vm_compute. repeat split. Qed.

(** C3. A write whose increase would take [used] above [capacity] fails
    with ENOSPC in the state the authorization check left: the path still
    resolves to the same object, with its bytes and its size, and the node
    store, [used] included, is the one before the call. *)
Theorem write_failure_is_atomic path dat off s a n :
  authorized "write" path s -> resolves s path a n -> is_dir n = false ->
  let delta := Z.max (size n) (off + PySeq.len dat) - size n in
  0 < delta -> capacity s < used s + delta ->
  exists s',
    write path dat off s = (Raise (FuseOSError ENOSPC), s') /\
    resolves s' path a n /\ used s' = used s /\ same_store s s'.
Proof.
  intros Hau Hres Hfile delta Hpos Hfull.
  exists (after_check "write" path s). split; [|split; [|split]].
  - by apply (write_no_space path dat off s a n).
  - by apply after_check_resolves.
  - by destruct (after_check_store "write" path s) as (_&Hu&_).
  - apply after_check_store.
Qed.

Lemma write_failure_is_atomic_witness :
  exists s',
    write "/f" digits10 11 store_f = (Raise (FuseOSError ENOSPC), s') /\
    resolves s' "/f" 1%nat (obj 1%nat store_f) /\ used s' = used store_f /\
    same_store store_f s'.
Proof.
  apply (write_failure_is_atomic "/f" digits10 11 store_f 1%nat (obj 1%nat store_f)).
  - reflexivity.
  - split; vm_compute; reflexivity.
  - reflexivity.
  - vm_compute; reflexivity.
  - vm_compute; reflexivity.
Defined.

(** ** Data operations on a directory *)

Section OnDirectory.
Variables (path : string) (s : FS) (a : addr) (n : Node).
Hypothesis Hres : resolves s path a n.
Hypothesis Hdir : is_dir n = true.

Lemma read_on_directory sz off :
  authorized "read" path s ->
  read path sz off s = (Raise (FuseOSError EISDIR), after_check "read" path s).
Proof.
  intros Hau.
  pose proof (after_check_resolves "read" path s _ _ _ Hres) as [Hf1 Hh1].
  unfold read.
  rewrite (bind_ok _ _ _ _ _ (check_split _ _ _ Hau)).
  rewrite (bind_ok _ _ _ _ _ (get_found _ _ _ Hf1)).
  unfold bind, deref, gets. by rewrite (obj_found _ _ _ Hh1), Hdir.
Qed.

Lemma write_on_directory dat off :
  authorized "write" path s ->
  write path dat off s = (Raise (FuseOSError EISDIR), after_check "write" path s).
Proof.
  intros Hau.
  pose proof (after_check_resolves "write" path s _ _ _ Hres) as [Hf1 Hh1].
  unfold write.
  rewrite (bind_ok _ _ _ _ _ (check_split _ _ _ Hau)).
  rewrite (bind_ok _ _ _ _ _ (get_found _ _ _ Hf1)).
  unfold bind, deref, gets. by rewrite (obj_found _ _ _ Hh1), Hdir.
Qed.

Lemma truncate_on_directory length :
  authorized "truncate" path s ->
  truncate path length s =
  (Raise (FuseOSError EISDIR), after_check "truncate" path s).
Proof.
  intros Hau.
  pose proof (after_check_resolves "truncate" path s _ _ _ Hres) as [Hf1 Hh1].
  unfold truncate.
  rewrite (bind_ok _ _ _ _ _ (check_split _ _ _ Hau)).
  rewrite (bind_ok _ _ _ _ _ (get_found _ _ _ Hf1)).
  unfold bind, deref, gets. by rewrite (obj_found _ _ _ Hh1), Hdir.
Qed.

End OnDirectory.

(** C10. An authorized read, write or truncate whose path resolves to a
    directory node fails with EISDIR, in the state the authorization check
    left, whose node store is the one before the call. *)
Theorem data_operation_on_directory path s a n :
  resolves s path a n -> is_dir n = true ->
  (forall sz off, authorized "read" path s ->
     read path sz off s = (Raise (FuseOSError EISDIR), after_check "read" path s) /\
     same_store s (after_check "read" path s)) /\
  (forall dat off, authorized "write" path s ->
     write path dat off s = (Raise (FuseOSError EISDIR), after_check "write" path s) /\
     same_store s (after_check "write" path s)) /\
  (forall length, authorized "truncate" path s ->
     truncate path length s =
       (Raise (FuseOSError EISDIR), after_check "truncate" path s) /\
     same_store s (after_check "truncate" path s)).
Proof.
  intros Hres Hdir. repeat split; try apply after_check_store.
  - by apply (read_on_directory path s a n).
  - by apply (write_on_directory path s a n).
  - by apply (truncate_on_directory path s a n).
Qed.

Lemma data_operation_on_directory_witness :
  read "/d" 10 0 store_fd =
    (Raise (FuseOSError EISDIR), after_check "read" "/d" store_fd) /\
  same_store store_fd (after_check "read" "/d" store_fd).
Proof.
  destruct (data_operation_on_directory "/d" store_fd 2%nat (obj 2%nat store_fd))
    as (Hread & _).
  - split; vm_compute; reflexivity.
  - vm_compute; reflexivity.
  - apply Hread. reflexivity.
Defined.

(** ** Slices with bounds that are not negative *)

Lemma slice_take_drop {A} (l : list A) off sz :
  0 <= off -> 0 <= sz ->
  PySeq.slice l off (off + sz) = take (Z.to_nat sz) (drop (Z.to_nat off) l).
Proof.
  intros Hoff Hsz. unfold PySeq.slice, PySeq.bound, PySeq.len.
  destruct (Z.ltb_spec off 0); [lia|].
  destruct (Z.ltb_spec (off + sz) 0); [lia|].
  destruct (Z_le_gt_dec (Z.of_nat (length l)) off) as [Hpast|Hin].
  - rewrite (drop_ge l (Z.to_nat off)) by lia.
    rewrite drop_ge by lia. by rewrite !take_nil.
  - replace (Z.min off (Z.of_nat (length l))) with off by lia.
    destruct (Z_le_gt_dec (off + sz) (Z.of_nat (length l))) as [Hall|Hcut].
    + f_equal. lia.
    + rewrite !take_ge; [done| |]; rewrite length_drop; lia.
Qed.

Lemma assign_then_slice {A} (l v : list A) off :
  0 <= off -> off + PySeq.len v <= PySeq.len l ->
  PySeq.slice (PySeq.assign l off (off + PySeq.len v) v) off (off + PySeq.len v) = v.
Proof.
  intros Hoff Hfit.
  rewrite slice_take_drop by (unfold PySeq.len; lia).
  unfold PySeq.assign, PySeq.bound, PySeq.len in *.
  destruct (Z.ltb_spec off 0); [lia|].
  destruct (Z.ltb_spec (off + Z.of_nat (length v)) 0); [lia|].
  replace (Z.min off (Z.of_nat (length l))) with off by lia.
  rewrite drop_app_length'; [|rewrite length_take; lia].
  rewrite Nat2Z.id. by rewrite take_app_length.
Qed.

(** ** [read] on a file *)

Lemma read_success path sz off s a n :
  authorized "read" path s -> resolves s path a n -> is_dir n = false ->
  exists s', read path sz off s = (Ok (PySeq.slice (data n) off (off + sz)), s').
Proof.
  intros Hau Hres Hfile.
  pose proof (after_check_resolves "read" path s _ _ _ Hres) as [Hf1 Hh1].
  unfold read.
  rewrite (bind_ok _ _ _ _ _ (check_split _ _ _ Hau)).
  rewrite (bind_ok _ _ _ _ _ (get_found _ _ _ Hf1)).
  unfold bind at 1. unfold deref, gets. rewrite (obj_found _ _ _ Hh1), Hfile.
  cbv beta iota delta [bind ret modify update now_ts]. by eexists.
Qed.

Lemma write_denied path dat off s e :
  fst (_check_and_prompt "write" path s) = Raise e ->
  fst (write path dat off s) = Raise e.
Proof.
  intros H. unfold write, bind.
  destruct (_check_and_prompt "write" path s) as [[[]|e'] s1]; simpl in *; congruence.
Qed.

Lemma write_ok_inv path dat off s a n k s1 :
  resolves s path a n -> write path dat off s = (Ok k, s1) ->
  authorized "write" path s /\ is_dir n = false /\
  ~ (0 < Z.max (size n) (off + PySeq.len dat) - size n /\
     capacity s < used s + (Z.max (size n) (off + PySeq.len dat) - size n)).
Proof.
  intros Hres Hw.
  assert (authorized "write" path s) as Hau.
  { unfold authorized.
    destruct (fst (_check_and_prompt "write" path s)) as [[]|e] eqn:E; [done|].
    apply (write_denied path dat off) in E. rewrite Hw in E. done. }
  split; [done|].
  destruct (is_dir n) eqn:Hd.
  { rewrite (write_on_directory path s a n Hres Hd dat off Hau) in Hw. done. }
  split; [done|]. intros [Hpos Hfull].
  pose proof (write_no_space path dat off s a n Hau Hres Hd Hpos Hfull) as Hn.
  rewrite Hn in Hw. done.
Qed.

(** C8. On a path that resolves to a node, a write that returned followed
    by an authorized read of as many bytes at the same offset gives the
    bytes written; and an authorized read of a file gives, position by
    position, the bytes of the buffer in the range asked for, so nothing when
    the offset is at or past its end.  Offsets and sizes are those of the
    binding: not negative. *)
Theorem write_read_round_trip path s a n :
  resolves s path a n ->
  (forall b off k s1,
     0 <= off -> write path b off s = (Ok k, s1) ->
     authorized "read" path s1 ->
     fst (read path (PySeq.len b) off s1) = Ok b) /\
  (forall sz off,
     0 <= off -> 0 <= sz -> is_dir n = false -> authorized "read" path s ->
     exists r,
       fst (read path sz off s) = Ok r /\
       (forall i : nat,
          r !! i = if bool_decide (Z.of_nat i < sz)
                   then data n !! (Z.to_nat off + i)%nat else None) /\
       (PySeq.len (data n) <= off -> r = [])).
Proof.
  intros Hres. split.
  - intros b off k s1 Hoff Hw Hau.
    destruct (write_ok_inv path b off s a n k s1 Hres Hw) as (Hauw & Hfile & Hfits).
    destruct (write_success path b off s a n Hauw Hres Hfile Hfits)
      as (s2 & n2 & Hw2 & Hr2 & Hf2 & _ & _ & Hd2 & _).
    rewrite Hw in Hw2. injection Hw2 as _ <-.
    destruct (read_success path (PySeq.len b) off s1 a n2 Hau Hr2 Hf2) as [s' ->].
    simpl. f_equal. rewrite Hd2. apply assign_then_slice; [done|].
    destruct (Z.ltb_spec (PySeq.len (data n))
                (Z.max (size n) (off + PySeq.len b))) as [Hlt|Hge].
    + unfold PySeq.len, PySeq.times in *. rewrite length_app, length_replicate. lia.
    + lia.
  - intros sz off Hoff Hsz Hfile Hau.
    destruct (read_success path sz off s a n Hau Hres Hfile) as [s' ->].
    eexists. split; [reflexivity|]. rewrite slice_take_drop by done. split.
    + intros i. case_bool_decide as Hi.
      * rewrite lookup_take_lt by lia. by rewrite lookup_drop.
      * apply lookup_take_ge. lia.
    + intros Hpast. unfold PySeq.len in Hpast.
      rewrite drop_ge by lia. apply take_nil.
Qed.

Lemma write_read_round_trip_witness :
  fst (read "/f" 3 1 (step store_f (Write "/f" abc 1))) = Ok abc.
Proof.
  destruct (write_read_round_trip "/f" store_f 1%nat (obj 1%nat store_f))
    as (Hround & _).
  - split; vm_compute; reflexivity.
  - apply (Hround abc 1 3 (step store_f (Write "/f" abc 1))).
    + lia.
    + vm_compute; reflexivity.
    + reflexivity.
Defined.

(** ** The allow-all flag *)

Global Instance flag_kept_preorder : PreOrder flag_kept.
Proof.
  split.
  - intros s H. exact H.
  - intros s1 s2 s3 H1 H2 H. apply H2, H1, H.
Qed.

(** A primitive that does not write the flag. *)
Ltac flag_prim :=
  first [ apply preserves_modify; [apply _|] | idtac ];
  intros s; unfold flag_kept; simpl; tauto.

Lemma now_ts_flag : preserves flag_kept now_ts.
Proof. flag_prim. Qed.

Lemma update_flag a f : preserves flag_kept (update a f).
Proof. unfold update. flag_prim. Qed.

Lemma touch_mc_flag a ts : preserves flag_kept (touch_mc a ts).
Proof. apply update_flag. Qed.

Lemma new_Node_flag isdir md : preserves flag_kept (new_Node isdir md).
Proof. unfold new_Node. pres_step; [apply now_ts_flag|]. flag_prim. Qed.

Lemma del_file_flag path : preserves flag_kept (del_file path).
Proof.
  intros s. unfold del_file. destruct (files s !! path); unfold flag_kept; simpl; tauto.
Qed.

Lemma del_child_flag a name : preserves flag_kept (del_child a name).
Proof. unfold del_child. repeat first [pres_step | apply update_flag]. Qed.

Lemma ensure_parent_flag path : preserves flag_kept (_ensure_parent path).
Proof. unfold _ensure_parent. repeat pres_step. Qed.

Lemma answer_flag key ans again :
  preserves flag_kept again -> preserves flag_kept (answer key ans again).
Proof.
  intros H. unfold answer, print.
  repeat first [ pres_step | apply now_ts_flag | exact H | flag_prim ].
Qed.

Lemma prompt_loop_flag op path key lines :
  preserves flag_kept (prompt_loop op path key lines).
Proof.
  induction lines as [|line rest IH]; simpl; unfold print.
  - pres_step; [flag_prim|]. apply answer_flag. pres_step.
  - pres_step; [flag_prim|]. pres_step; [flag_prim|]. by apply answer_flag.
Qed.

Lemma check_flag op path : preserves flag_kept (_check_and_prompt op path).
Proof.
  unfold _check_and_prompt, log_info, allowed.
  repeat first [ pres_step | apply now_ts_flag | apply prompt_loop_flag | flag_prim ].
Qed.

Ltac flag_step :=
  first [ pres_step | apply check_flag | apply now_ts_flag | apply update_flag
        | apply touch_mc_flag | apply new_Node_flag | apply del_file_flag
        | apply del_child_flag | apply ensure_parent_flag | flag_prim ].

Lemma call_flag c : preserves flag_kept (call c).
Proof.
  destruct c; unfold call, access, getattr, readdir, mkdir, rmdir, unlink, rename,
    open, create, read, write, truncate, utimens, chmod, chown, statfs, log_info;
    repeat flag_step.
Qed.

Lemma run_flag s cs : flag_kept s (run s cs).
Proof.
  revert s. induction cs as [|c cs IH]; intros s; simpl.
  - reflexivity.
  - etrans; [apply (call_flag c s)|]. apply IH.
Qed.

(** With the flag set a check only logs. *)
Lemma check_allow_all op path s :
  global_allow_all s = true ->
  _check_and_prompt op path s =
  (Ok tt, set_log (("op=" +:+ op +:+ " path=" +:+ path) :: log s) s).
Proof.
  intros H. unfold _check_and_prompt, log_info, bind, modify, gets. simpl.
  rewrite H. by rewrite orb_true_r.
Qed.

(** ** Reaching the prompt, and what an answer does *)

Lemma check_reaches_prompt op path s :
  must_prompt op path s ->
  exists s1,
    _check_and_prompt op path s =
      prompt_loop op path (rule_key (ask_scope s) op path) (stdin (env s)) s1 /\
    stdin (env s1) = stdin (env s) /\ stdout (env s1) = stdout (env s) /\
    global_allow_all s1 = false /\ ask s1 = true /\ ask_scope s1 = ask_scope s /\
    allow_rules s1 = delete (rule_key (ask_scope s) op path) (allow_rules s) /\
    log s1 = ("op=" +:+ op +:+ " path=" +:+ path) :: log s /\
    same_store s s1.
Proof.
  intros (Hask & Hall & Hrule).
  unfold _check_and_prompt, log_info, _rule_key.
  cbv beta iota delta [bind gets modify ret]. simpl.
  rewrite Hask, Hall. simpl.
  destruct (allow_rules s !! rule_key (ask_scope s) op path) as [r|] eqn:Hr.
  - unfold allowed. unfold rule_valid in Hrule.
    destruct (expires_at r) as [e|].
    + cbv beta iota delta [bind gets modify ret now_ts]. simpl. rewrite Hrule.
      eexists. split; [reflexivity|]. unfold same_store. simpl. tauto.
    + destruct (remaining r) as [k|]; [|done].
      cbv beta iota delta [bind gets modify ret]. simpl. rewrite Hrule.
      eexists. split; [reflexivity|]. unfold same_store. simpl. tauto.
  - eexists. split; [reflexivity|]. unfold same_store. simpl.
    rewrite delete_id by done. tauto.
Qed.

Lemma prompt_loop_cons op path key line rest s :
  prompt_loop op path key (line :: rest) s =
  answer key (PyStr.strip line) (prompt_loop op path key rest)
    (set_env (set_stdin rest
                (set_stdout (prompt_text op path :: stdout (env s)) (env s))) s).
Proof. reflexivity. Qed.

Lemma digit_char c :
  PyStr.is_digit c = true ->
  PyStr.lower_char c = c /\ c <> "y"%char /\ c <> "a"%char /\ c <> "n"%char /\
  c <> "s"%char.
Proof.
  destruct c as [[] [] [] [] [] [] [] []]; vm_compute; intros H;
    try discriminate H; repeat split; discriminate.
Qed.

Lemma digits_not_suffixed s :
  PyStr.all_digits s = true -> PyStr.endswith s "s" = false.
Proof.
  induction s as [|c r IH]; [done|]. simpl. intros H.
  apply andb_prop in H as [Hc Hr]. destruct r as [|d r'].
  - apply bool_decide_eq_false. by apply digit_char.
  - by apply IH.
Qed.

Lemma answer_count key ans again s :
  PyStr.isdigit ans = true ->
  answer key ans again s =
  (Ok tt, set_allow_rules
            (<[key := mkRule None (Some (PyStr.int ans))]> (allow_rules s)) s).
Proof.
  intros Hd. unfold answer.
  destruct ans as [|c r]; [done|]. simpl in Hd.
  pose proof Hd as Hd'. apply andb_prop in Hd' as [Hc Hr].
  destruct (digit_char c Hc) as (Hl & Hy & Ha & Hn & Hs).
  rewrite (bool_decide_eq_false_2 (String c r = "")) by done.
  assert (forall x : ascii, c <> x ->
            bool_decide (PyStr.lower (String c r) = String x "") = false) as Hne.
  { intros x Hx. apply bool_decide_eq_false. simpl. rewrite Hl. congruence. }
  rewrite !Hne by done. simpl orb.
  rewrite (digits_not_suffixed (String c r)) by done. simpl andb.
  replace (PyStr.isdigit (String c r)) with true by (symmetry; exact Hd).
  reflexivity.
Qed.

Lemma answer_allow_all key ans again s :
  PyStr.lower ans = "a" ->
  answer key ans again s = (Ok tt, set_global_allow_all true s).
Proof.
  intros Ha. unfold answer. rewrite Ha.
  rewrite (bool_decide_eq_false_2 (ans = "")) by (by intros ->).
  reflexivity.
Qed.

(** C7. The allow-all flag is false in a new store and is set by the answer
    [a] to a prompt.  Once it is set, it is still set after any sequence of
    calls, and every authorization check then approves in a state that
    differs from the one before only by one more log record holding the
    operation name and the path: nothing is read or printed, and the rule
    table is neither read nor written. *)
Theorem allow_all_is_permanent s cs op path :
  global_allow_all s = true ->
  let s' := run s cs in
  global_allow_all s' = true /\
  _check_and_prompt op path s' =
    (Ok tt, set_log (("op=" +:+ op +:+ " path=" +:+ path) :: log s') s') /\
  (forall cap a sc e, global_allow_all (init cap a sc e) = false) /\
  (forall s0 op0 path0 line rest,
     must_prompt op0 path0 s0 -> stdin (env s0) = line :: rest ->
     PyStr.lower (PyStr.strip line) = "a" ->
     authorized op0 path0 s0 /\
     global_allow_all (after_check op0 path0 s0) = true).
Proof.
  intros Hset s'.
  assert (global_allow_all s' = true) as Hs' by (by apply run_flag).
  split; [done|]. split; [by apply check_allow_all|]. split; [done|].
  intros s0 op0 path0 line rest Hp Hin Ha.
  destruct (check_reaches_prompt op0 path0 s0 Hp) as (s1 & Hc & Hin1 & _).
  unfold authorized, after_check. rewrite Hc, Hin, prompt_loop_cons.
  by rewrite answer_allow_all.
Qed.

Lemma allow_all_is_permanent_witness :
  global_allow_all
    (run store_allow_all [Create "/f" 420; Write "/f" abc 0]) = true /\
  fst (_check_and_prompt "read" "/f"
         (run store_allow_all [Create "/f" 420; Write "/f" abc 0])) = Ok tt.
Proof.
  destruct (allow_all_is_permanent store_allow_all
              [Create "/f" 420; Write "/f" abc 0] "read" "/f") as (H1 & H2 & _).
  - vm_compute; reflexivity.
  - split; [exact H1|]. rewrite H2. reflexivity.
Defined.

(** ** Count rules *)

Global Instance printed_more_preorder : PreOrder printed_more.
Proof.
  split.
  - intros s. by exists [].
  - intros s1 s2 s3 [o1 H1] [o2 H2]. exists (o2 ++ o1).
    by rewrite H2, H1, app_assoc.
Qed.

Ltac printed_prim :=
  first [ apply preserves_modify; [apply _|] | idtac ];
  intros s; unfold printed_more; simpl;
  first [ by exists [] | by eexists [_] ].

Lemma answer_printed_more key ans again :
  preserves printed_more again -> preserves printed_more (answer key ans again).
Proof.
  intros H. unfold answer, print.
  repeat first [ pres_step | exact H | printed_prim ].
Qed.

Lemma prompt_loop_printed_more op path key lines :
  preserves printed_more (prompt_loop op path key lines).
Proof.
  induction lines as [|line rest IH]; simpl; unfold print.
  - pres_step; [printed_prim|]. apply answer_printed_more. pres_step.
  - pres_step; [printed_prim|]. pres_step; [printed_prim|].
    by apply answer_printed_more.
Qed.

Lemma prompt_loop_nil op path key s :
  prompt_loop op path key [] s =
  answer key "n" (ret tt)
    (set_env (set_stdout (prompt_text op path :: stdout (env s)) (env s)) s).
Proof. reflexivity. Qed.

(** The loop starts by printing the prompt. *)
Lemma prompt_loop_prints op path key lines s :
  exists out,
    stdout (env (snd (prompt_loop op path key lines s))) =
    out ++ prompt_text op path :: stdout (env s).
Proof.
  destruct lines as [|line rest].
  - rewrite prompt_loop_nil.
    destruct (answer_printed_more key "n" (ret tt) (preserves_ret _ tt)
                (set_env (set_stdout (prompt_text op path :: stdout (env s)) (env s)) s))
      as [out Hout].
    exists out. by rewrite Hout.
  - rewrite prompt_loop_cons.
    destruct (answer_printed_more key (PyStr.strip line) _
                (prompt_loop_printed_more op path key rest)
                (set_env (set_stdin rest
                   (set_stdout (prompt_text op path :: stdout (env s)) (env s))) s))
      as [out Hout].
    exists out. by rewrite Hout.
Qed.

(** A check that finds a count rule with uses left takes one and returns. *)
Lemma check_counted op path s k :
  ask s = true -> global_allow_all s = false ->
  allow_rules s !! rule_key (ask_scope s) op path = Some (mkRule None (Some k)) ->
  0 < k ->
  _check_and_prompt op path s =
  (Ok tt,
   set_allow_rules
     (<[rule_key (ask_scope s) op path := mkRule None (Some (k - 1))]> (allow_rules s))
     (set_log (("op=" +:+ op +:+ " path=" +:+ path) :: log s) s)).
Proof.
  intros Hask Hall Hrule Hk.
  unfold _check_and_prompt, log_info, _rule_key.
  cbv beta iota delta [bind gets modify ret]. simpl.
  rewrite Hask, Hall. simpl. rewrite Hrule.
  unfold allowed, consume. simpl.
  cbv beta iota delta [bind gets modify ret].
  destruct (Z.ltb_spec 0 k); [done|lia].
Qed.

Lemma checks_counted key l : forall s k,
  ask s = true -> global_allow_all s = false ->
  allow_rules s !! key = Some (mkRule None (Some k)) ->
  k = Z.of_nat (length l) ->
  Forall (fun c => rule_key (ask_scope s) (fst c) (snd c) = key) l ->
  exists s2,
    checks l s = (Ok tt, s2) /\ quiet s s2 /\
    ask s2 = true /\ global_allow_all s2 = false /\ ask_scope s2 = ask_scope s /\
    allow_rules s2 !! key = Some (mkRule None (Some 0)).
Proof.
  induction l as [|[op path] l IH]; intros s k Hask Hall Hrule Hk Hkeys.
  - exists s. simpl in Hk. subst k. by repeat split.
  - apply Forall_cons in Hkeys as [Hkey Hkeys]. simpl in Hkey, Hk.
    assert (0 < k) as Hpos by lia.
    rewrite <- Hkey in Hrule.
    pose proof (check_counted op path s k Hask Hall Hrule Hpos) as Hc.
    rewrite Hkey in Hc.
    destruct (IH (set_allow_rules
                    (<[key := mkRule None (Some (k - 1))]> (allow_rules s))
                    (set_log (("op=" +:+ op +:+ " path=" +:+ path) :: log s) s))
                 (k - 1))
      as (s2 & Hrun & [Hin Hout] & Hrest).
    { exact Hask. }
    { exact Hall. }
    { simpl. apply lookup_insert_eq. }
    { lia. }
    { exact Hkeys. }
    exists s2. simpl. unfold bind at 1. rewrite Hc. split; [exact Hrun|].
    split; [by split|]. exact Hrest.
Qed.

(** C5. With prompts on and allow-all unset, answering a prompt for a key
    with a positive integer [N] approves that invocation and stores the rule
    [Rule(remaining=N)], of which nothing is used yet.  Any [N] checks that
    follow for the same key are approved without a line read or printed, and
    the check after them prints the prompt again. *)
Theorem count_grant_lasts_N_checks s op path line rest N :
  must_prompt op path s -> stdin (env s) = line :: rest ->
  PyStr.isdigit (PyStr.strip line) = true -> PyStr.int (PyStr.strip line) = N ->
  0 < N ->
  let key := rule_key (ask_scope s) op path in
  exists s1,
    _check_and_prompt op path s = (Ok tt, s1) /\
    allow_rules s1 !! key = Some (mkRule None (Some N)) /\
    stdin (env s1) = rest /\
    forall l,
      Z.of_nat (length l) = N ->
      Forall (fun c => rule_key (ask_scope s) (fst c) (snd c) = key) l ->
      exists s2,
        checks l s1 = (Ok tt, s2) /\ quiet s1 s2 /\
        forall op' path',
          rule_key (ask_scope s) op' path' = key ->
          exists out,
            stdout (env (after_check op' path' s2)) =
            out ++ prompt_text op' path' :: stdout (env s2).
Proof.
  intros Hp Hin Hdig Hint HN key.
  destruct (check_reaches_prompt op path s Hp)
    as (s0 & Hc & Hin0 & _ & Hall0 & Hask0 & Hscope0 & _).
  rewrite Hin, prompt_loop_cons, (answer_count _ _ _ _ Hdig), Hint in Hc.
  match type of Hc with _ = (_, ?st) => set (s1 := st) in * end.
  assert (ask_scope s1 = ask_scope s) as Hscope1 by exact Hscope0.
  assert (allow_rules s1 !! key = Some (mkRule None (Some N))) as Hrule1.
  { subst s1. simpl. apply lookup_insert_eq. }
  exists s1. split; [exact Hc|]. split; [exact Hrule1|]. split; [done|].
  intros l Hlen Hkeys.
  destruct (checks_counted key l s1 N)
    as (s2 & Hrun & Hq & Hask2 & Hall2 & Hscope2 & Hrule2).
  { exact Hask0. }
  { exact Hall0. }
  { exact Hrule1. }
  { by symmetry. }
  { by rewrite Hscope1. }
  exists s2. split; [exact Hrun|]. split; [exact Hq|].
  intros op' path' Hkey'.
  destruct (check_reaches_prompt op' path' s2) as (s3 & Hc3 & _ & Hout3 & _).
  { split; [done|]. split; [done|].
    rewrite Hscope2, Hscope1, Hkey', Hrule2. reflexivity. }
  unfold after_check. rewrite Hc3.
  destruct (prompt_loop_prints op' path'
              (rule_key (ask_scope s2) op' path') (stdin (env s2)) s3)
    as [out Hout].
  exists out. by rewrite Hout, Hout3.
Qed.

Lemma count_grant_lasts_N_checks_witness :
  exists s1,
    _check_and_prompt "read" "/secret" store_asking = (Ok tt, s1) /\
    allow_rules s1 !! ("read", "/secret") = Some (mkRule None (Some 3)) /\
    stdin (env s1) = ["y"].
Proof.
  destruct (count_grant_lasts_N_checks store_asking "read" "/secret" "3" ["y"] 3)
    as (s1 & H1 & H2 & H3 & _).
  - vm_compute. repeat split.
  - reflexivity.
  - reflexivity.
  - reflexivity.
  - lia.
  - exists s1. repeat split; [exact H1 | exact H2 | exact H3].
Defined.

(** * The accounting invariant *)

(** ** Sums of file sizes *)

Lemma foldr_add_perm (l1 l2 : list Z) :
  l1 ≡ₚ l2 -> foldr Z.add 0 l1 = foldr Z.add 0 l2.
Proof. induction 1; simpl; lia. Qed.

Lemma sum_sizes_insert f h p a :
  f !! p = None -> sum_sizes (<[p := a]> f) h = fsize h a + sum_sizes f h.
Proof.
  intros H. unfold sum_sizes.
  rewrite (foldr_add_perm _ (map (fun pa => fsize h (snd pa)) ((p, a) :: map_to_list f))).
  - done.
  - apply fmap_Permutation. by apply map_to_list_insert.
Qed.

Lemma sum_sizes_delete f h p a :
  f !! p = Some a -> sum_sizes f h = fsize h a + sum_sizes (delete p f) h.
Proof.
  intros H. rewrite <- (sum_sizes_insert (delete p f) h p a) by apply lookup_delete_eq.
  by rewrite insert_delete_id.
Qed.

Lemma sum_sizes_replace f h p a :
  sum_sizes (<[p := a]> f) h = fsize h a + sum_sizes (delete p f) h.
Proof.
  rewrite <- insert_delete_eq. apply sum_sizes_insert, lookup_delete_eq.
Qed.

Lemma sum_sizes_ext f h h' :
  (forall p a, f !! p = Some a -> fsize h' a = fsize h a) ->
  sum_sizes f h' = sum_sizes f h.
Proof.
  intros H. unfold sum_sizes. f_equal. apply map_ext_in.
  intros [p a] Hin. simpl. apply (H p).
  apply elem_of_map_to_list. by apply list_elem_of_In.
Qed.

Lemma fsize_file h a n : h !! a = Some n -> is_dir n = false -> fsize h a = size n.
Proof. intros H Hd. unfold fsize. by rewrite H, Hd. Qed.

Lemma fsize_dir h a n : h !! a = Some n -> is_dir n = true -> fsize h a = 0.
Proof. intros H Hd. unfold fsize. by rewrite H, Hd. Qed.

Lemma fsize_same h h' a :
  h' !! a = h !! a -> fsize h' a = fsize h a.
Proof. intros H. unfold fsize. by rewrite H. Qed.

(** ** Paths under the root *)

Lemma root_join name : "/" +:+ name = String "/" name.
Proof. reflexivity. Qed.

Lemma root_join_inj n1 n2 : "/" +:+ n1 = "/" +:+ n2 -> n1 = n2.
Proof. rewrite !root_join. congruence. Qed.

Lemma root_join_root name : "/" +:+ name = "/" <-> name = "".
Proof. rewrite root_join. split; [congruence|by intros ->]. Qed.

(** ** The invariant under changes of the store *)

Section StoreInv.
Variables (cap u : Z) (f : gmap string addr) (h : gmap addr Node).
Hypothesis I : StoreInv cap u f h.

Lemma StoreInv_heap_ext h' :
  (forall b n', h' !! b = Some n' ->
     exists n, h !! b = Some n /\ is_dir n' = is_dir n /\ size n' = size n /\
               children n' = children n) ->
  (forall b, is_Some (h !! b) -> is_Some (h' !! b)) ->
  StoreInv cap u f h'.
Proof.
  intros Hsame Hlive. destruct I as [Il Ii Iu Ic In Id]. split.
  - intros p a Hp. eauto.
  - done.
  - rewrite Iu. symmetry. apply sum_sizes_ext. intros p a Hp. unfold fsize.
    destruct (h' !! a) as [n'|] eqn:E.
    + destruct (Hsame a n' E) as (n & -> & -> & -> & _). done.
    + destruct (Hlive a (Il p a Hp)) as [x Hx]. congruence.
  - done.
  - intros p a n' Hp Hn' Hd. destruct (Hsame a n' Hn') as (n & Hn & Hdn & -> & _).
    apply (In p a n); congruence.
  - intros p a n' Hp Hn' Hd. destruct (Hsame a n' Hn') as (n & Hn & Hdn & _ & ->).
    apply (Id p a n); congruence.
Qed.

Lemma StoreInv_alter_meta g a :
  (forall n, is_dir (g n) = is_dir n /\ size (g n) = size n /\
             children (g n) = children n) ->
  StoreInv cap u f (alter g a h).
Proof.
  intros Hg. apply StoreInv_heap_ext.
  - intros b n'. destruct (decide (a = b)) as [->|Hne].
    + rewrite lookup_alter_eq. destruct (h !! b) as [n|]; [|done].
      intros [= <-]. exists n. split; [done|]. apply Hg.
    + rewrite lookup_alter_ne by done. intros Hb. exists n'. tauto.
  - intros b. destruct (decide (a = b)) as [->|Hne].
    + rewrite lookup_alter_eq. intros [n ->]. by eexists.
    + by rewrite lookup_alter_ne.
Qed.


(** A file node gets a new size; the counter follows. *)
Lemma StoreInv_update h' u' p a n n' :
  f !! p = Some a -> h !! a = Some n -> is_dir n = false ->
  h' !! a = Some n' -> is_dir n' = false -> 0 <= size n' ->
  (forall b, b <> a -> h' !! b = h !! b) ->
  u' = u + (size n' - size n) -> u' <= cap ->
  StoreInv cap u' f h'.
Proof.
  intros Hp Hn Hfile Hn' Hfile' Hpos Hother -> Hcap.
  destruct I as [Il Ii Iu Ic In Id]. split.
  - intros q b Hq. destruct (decide (b = a)) as [->|Hne]; [by eexists|].
    rewrite Hother by done. eauto.
  - done.
  - rewrite Iu, (sum_sizes_delete f h p a Hp), (sum_sizes_delete f h' p a Hp).
    rewrite (fsize_file h a n), (fsize_file h' a n') by done.
    rewrite (sum_sizes_ext (delete p f) h h'); [lia|].
    intros q b Hq. apply fsize_same, Hother. intros ->.
    apply lookup_delete_Some in Hq as [Hne Hq]. apply Hne. by apply (Ii p q a).
  - done.
  - intros q b m Hq Hm Hd. destruct (decide (b = a)) as [->|Hne].
    + congruence.
    + rewrite Hother in Hm by done. by apply (In q b m).
  - intros q b m Hq Hm Hd. destruct (decide (b = a)) as [->|Hne].
    + congruence.
    + rewrite Hother in Hm by done. by apply (Id q b m).
Qed.

Section Root.
Variables (r : addr) (nd : Node).
Hypothesis Hroot : f !! "/" = Some r.
Hypothesis Hnd : h !! r = Some nd.
Hypothesis Hdir : is_dir nd = true.

Lemma root_children name c :
  children nd !! name = Some c -> name <> "" /\ f !! ("/" +:+ name) = Some c.
Proof. intros H. by apply (inv_dir _ _ _ _ I "/" r nd Hroot Hnd Hdir). Qed.

Lemma root_entries q c :
  f !! q = Some c -> q <> "/" ->
  exists name, q = "/" +:+ name /\ children nd !! name = Some c.
Proof. intros H Hq. by apply (inv_dir _ _ _ _ I "/" r nd Hroot Hnd Hdir). Qed.

Lemma only_root_is_dir p a n :
  f !! p = Some a -> h !! a = Some n -> is_dir n = true -> p = "/" /\ a = r /\ n = nd.
Proof.
  intros Hp Hn Hd. destruct (inv_dir _ _ _ _ I p a n Hp Hn Hd) as [-> _].
  split; [done|]. assert (a = r) as -> by congruence. split; congruence.
Qed.

Lemma child_is_file name c :
  children nd !! name = Some c ->
  c <> r /\ exists n, h !! c = Some n /\ is_dir n = false /\ 0 <= size n.
Proof.
  intros Hc. destruct (root_children name c Hc) as [Hne Hf].
  destruct (inv_live _ _ _ _ I _ _ Hf) as [n Hn].
  assert (is_dir n = false) as Hd.
  { destruct (is_dir n) eqn:E; [|done].
    destruct (only_root_is_dir _ _ _ Hf Hn E) as [Hp _].
    apply root_join_root in Hp. done. }
  split.
  - intros ->. congruence.
  - exists n. split; [done|]. split; [done|]. by apply (inv_nonneg _ _ _ _ I _ c n Hf).
Qed.

(** A new file under the root. *)
Lemma StoreInv_create name c nn :
  children nd !! name = None -> h !! c = None ->
  is_dir nn = false -> size nn = 0 ->
  StoreInv cap u (<["/" +:+ name := c]> f)
    (alter (fun n => set_children (<[name := c]> (children n)) n) r (<[c := nn]> h)).
Proof.
  intros Hfree Hfresh Hfile Hsz.
  assert (c <> r) as Hcr by (intros ->; congruence).
  assert (forall p b, f !! p = Some b -> b <> c) as Hold.
  { intros p b Hp ->. destruct (inv_live _ _ _ _ I _ _ Hp). congruence. }
  set (h' := alter _ r (<[c := nn]> h)).
  assert (h' !! c = Some nn) as Hc'.
  { unfold h'. rewrite lookup_alter_ne by done. apply lookup_insert_eq. }
  assert (h' !! r = Some (set_children (<[name := c]> (children nd)) nd)) as Hr'.
  { unfold h'. rewrite lookup_alter_eq, lookup_insert_ne by done. by rewrite Hnd. }
  assert (forall b, b <> c -> b <> r -> h' !! b = h !! b) as Hother.
  { intros b Hbc Hbr. unfold h'. rewrite lookup_alter_ne, lookup_insert_ne; done. }
  assert (forall b, b <> c -> fsize h' b = fsize h b) as Hfs.
  { intros b Hbc. destruct (decide (b = r)) as [->|Hbr].
    - rewrite (fsize_dir h' r _ Hr'), (fsize_dir h r nd); done.
    - by apply fsize_same, Hother. }
  assert (forall x, f !! ("/" +:+ name) = Some x -> x = r /\ name = "") as Hclash.
  { intros x Hx. destruct (decide ("/" +:+ name = "/")) as [E|E].
    - split; [congruence|]. by apply root_join_root.
    - destruct (root_entries _ _ Hx E) as (nm & Heq & Hnm).
      apply root_join_inj in Heq as <-. congruence. }
  destruct I as [Il Ii Iu Ic In Id]. split.
  - intros p b Hp. destruct (decide (p = "/" +:+ name)) as [->|Hne].
    + rewrite lookup_insert_eq in Hp. injection Hp as <-. by eexists.
    + rewrite lookup_insert_ne in Hp by done.
      destruct (decide (b = r)) as [->|Hbr]; [by eexists|].
      rewrite Hother; eauto.
  - intros p q b Hp Hq.
    destruct (decide (p = "/" +:+ name)) as [->|Hp'];
      destruct (decide (q = "/" +:+ name)) as [->|Hq']; [done|..].
    + rewrite lookup_insert_eq in Hp. rewrite lookup_insert_ne in Hq by done.
      injection Hp as <-. by destruct (Hold _ _ Hq).
    + rewrite lookup_insert_eq in Hq. rewrite lookup_insert_ne in Hp by done.
      injection Hq as <-. by destruct (Hold _ _ Hp).
    + rewrite lookup_insert_ne in Hp, Hq by done. eauto.
  - rewrite sum_sizes_replace, (fsize_file h' c nn) by done.
    rewrite (sum_sizes_ext (delete ("/" +:+ name) f) h h').
    2: { intros p b Hp. apply lookup_delete_Some in Hp as [_ Hp]. apply Hfs. eauto. }
    rewrite Iu, Hsz. destruct (f !! ("/" +:+ name)) as [x|] eqn:E.
    + destruct (Hclash x eq_refl) as [-> _].
      rewrite (sum_sizes_delete f h _ r E), (fsize_dir h r nd); done.
    + by rewrite delete_id.
  - done.
  - intros p b m Hp Hm Hd. destruct (decide (b = c)) as [->|Hbc].
    + assert (m = nn) as -> by congruence. lia.
    + destruct (decide (b = r)) as [->|Hbr].
      * rewrite Hr' in Hm. injection Hm as <-. simpl in Hd. congruence.
      * rewrite Hother in Hm by done.
        destruct (decide (p = "/" +:+ name)) as [->|Hne].
        { rewrite lookup_insert_eq in Hp. congruence. }
        rewrite lookup_insert_ne in Hp by done. by apply (In p b m).
  - intros p b m Hp Hm Hd.
    destruct (decide (p = "/" +:+ name)) as [->|Hne].
    { rewrite lookup_insert_eq in Hp. injection Hp as <-.
      rewrite Hc' in Hm. congruence. }
    rewrite lookup_insert_ne in Hp by done.
    assert (b = r) as ->.
    { destruct (decide (b = r)) as [|Hbr]; [done|].
      rewrite Hother in Hm by eauto.
      by destruct (only_root_is_dir _ _ _ Hp Hm Hd) as (_ & ? & _). }
    rewrite Hr' in Hm. injection Hm as <-.
    assert (p = "/") as -> by (by apply (Ii p "/" r)).
    assert (name <> "") as Hname by (intros ->; by apply Hne).
    split; [done|]. split.
    + intros nm x. simpl. destruct (decide (nm = name)) as [->|Hnm].
      * rewrite !lookup_insert_eq. intros [= <-]. done.
      * rewrite lookup_insert_ne by done. intros Hx.
        destruct (root_children nm x Hx) as [? Hfx]. split; [done|].
        rewrite lookup_insert_ne; [done|]. intros E. by apply root_join_inj in E.
    + intros q x Hq Hqr. simpl. destruct (decide (q = "/" +:+ name)) as [->|Hq'].
      * rewrite lookup_insert_eq in Hq. injection Hq as <-.
        exists name. by rewrite lookup_insert_eq.
      * rewrite lookup_insert_ne in Hq by done.
        destruct (root_entries q x Hq Hqr) as (nm & -> & Hx). exists nm.
        split; [done|]. rewrite lookup_insert_ne; [done|]. by intros ->.
Qed.


(** No path but [/name] can hold what the root has under [name]. *)
Lemma root_slot name x :
  children nd !! name = None -> f !! ("/" +:+ name) = Some x -> x = r /\ name = "".
Proof.
  intros Hfree Hx. destruct (decide ("/" +:+ name = "/")) as [E|E].
  - split; [congruence|]. by apply root_join_root.
  - destruct (root_entries _ _ Hx E) as (nm & Heq & Hnm).
    apply root_join_inj in Heq as <-. congruence.
Qed.

(** A file leaves the root; its bytes are given back. *)
Lemma StoreInv_remove name a n :
  children nd !! name = Some a -> h !! a = Some n ->
  StoreInv cap (u - size n) (delete ("/" +:+ name) f)
    (alter (fun m => set_children (delete name (children m)) m) r h).
Proof.
  intros Hchild Hn.
  destruct (root_children name a Hchild) as [Hname Hfa].
  destruct (child_is_file name a Hchild) as (Har & n0 & Hn0 & Hfile & Hpos).
  assert (n0 = n) as -> by congruence.
  set (h' := alter _ r h).
  assert (h' !! r = Some (set_children (delete name (children nd)) nd)) as Hr'.
  { unfold h'. by rewrite lookup_alter_eq, Hnd. }
  assert (forall b, b <> r -> h' !! b = h !! b) as Hother.
  { intros b Hbr. unfold h'. by rewrite lookup_alter_ne. }
  assert (forall b, fsize h' b = fsize h b) as Hfs.
  { intros b. destruct (decide (b = r)) as [->|Hbr].
    - rewrite (fsize_dir h' r _ Hr'), (fsize_dir h r nd); done.
    - by apply fsize_same, Hother. }
  assert ("/" +:+ name <> "/") as Hnr by (by rewrite root_join_root).
  destruct I as [Il Ii Iu Ic In Id]. split.
  - intros p b Hp. apply lookup_delete_Some in Hp as [_ Hp].
    destruct (decide (b = r)) as [->|Hbr]; [by eexists|]. rewrite Hother; eauto.
  - intros p q b Hp Hq. apply lookup_delete_Some in Hp as [_ Hp].
    apply lookup_delete_Some in Hq as [_ Hq]. eauto.
  - rewrite Iu, (sum_sizes_delete f h _ a Hfa), (fsize_file h a n) by done.
    rewrite (sum_sizes_ext (delete ("/" +:+ name) f) h h'); [lia|]. by intros.
  - lia.
  - intros p b m Hp Hm Hd. apply lookup_delete_Some in Hp as [_ Hp].
    destruct (decide (b = r)) as [->|Hbr].
    + rewrite Hr' in Hm. injection Hm as <-. simpl in Hd. congruence.
    + rewrite Hother in Hm by done. by apply (In p b m).
  - intros p b m Hp Hm Hd. apply lookup_delete_Some in Hp as [Hpn Hp].
    assert (b = r) as ->.
    { destruct (decide (b = r)) as [|Hbr]; [done|].
      rewrite Hother in Hm by done.
      by destruct (only_root_is_dir _ _ _ Hp Hm Hd) as (_ & ? & _). }
    rewrite Hr' in Hm. injection Hm as <-.
    assert (p = "/") as -> by (by apply (Ii p "/" r)).
    split; [done|]. split.
    + intros nm x. simpl. intros Hx. apply lookup_delete_Some in Hx as [Hnm Hx].
      destruct (root_children nm x Hx) as [? Hfx]. split; [done|].
      rewrite lookup_delete_ne; [done|]. intros E. by apply root_join_inj in E.
    + intros q x Hq Hqr. simpl. apply lookup_delete_Some in Hq as [Hqn Hq].
      destruct (root_entries q x Hq Hqr) as (nm & -> & Hx). exists nm.
      split; [done|]. rewrite lookup_delete_ne; [done|]. by intros ->.
Qed.

(** A file of the root takes a free name of the root, the empty name of
    the path [/] included: then the file stands where the root stood. *)
Lemma StoreInv_move oname nname a :
  children nd !! oname = Some a -> children nd !! nname = None ->
  StoreInv cap u (<["/" +:+ nname := a]> (delete ("/" +:+ oname) f))
    (alter (fun m => set_children (<[nname := a]> (children m)) m) r
       (alter (fun m => set_children (delete oname (children m)) m) r h)).
Proof.
  intros Hchild Hfree.
  destruct (root_children oname a Hchild) as [Honame Hfa].
  destruct (child_is_file oname a Hchild) as (Har & n & Hn & Hfile & Hpos).
  assert (oname <> nname) as Hon by (intros ->; congruence).
  assert ("/" +:+ oname <> "/" +:+ nname) as Hpaths.
  { intros E. by apply root_join_inj in E. }
  assert ("/" +:+ oname <> "/") as Hor by (by rewrite root_join_root).
  set (h' := alter _ r (alter _ r h)).
  assert (h' !! r = Some (set_children (<[nname := a]> (delete oname (children nd))) nd))
    as Hr'.
  { unfold h'. by rewrite !lookup_alter_eq, Hnd. }
  assert (forall b, b <> r -> h' !! b = h !! b) as Hother.
  { intros b Hbr. unfold h'. by rewrite !lookup_alter_ne. }
  assert (forall b, fsize h' b = fsize h b) as Hfs.
  { intros b. destruct (decide (b = r)) as [->|Hbr].
    - rewrite (fsize_dir h' r _ Hr'), (fsize_dir h r nd); done.
    - by apply fsize_same, Hother. }
  destruct I as [Il Ii Iu Ic In Id]. split.
  - intros p b Hp. destruct (decide (p = "/" +:+ nname)) as [->|Hne].
    + rewrite lookup_insert_eq in Hp. injection Hp as <-.
      rewrite Hother by done. by eexists.
    + rewrite lookup_insert_ne in Hp by done.
      apply lookup_delete_Some in Hp as [_ Hp].
      destruct (decide (b = r)) as [->|Hbr]; [by eexists|]. rewrite Hother; eauto.
  - assert (forall q b, delete ("/" +:+ oname) f !! q = Some b -> b <> a) as Hgone.
    { intros q b Hq ->. apply lookup_delete_Some in Hq as [Hq1 Hq2].
      apply Hq1. by apply (Ii _ _ a). }
    intros p q b Hp Hq.
    destruct (decide (p = "/" +:+ nname)) as [->|Hp'];
      destruct (decide (q = "/" +:+ nname)) as [->|Hq']; [done|..].
    + rewrite lookup_insert_eq in Hp. rewrite lookup_insert_ne in Hq by done.
      injection Hp as <-. by destruct (Hgone _ _ Hq).
    + rewrite lookup_insert_eq in Hq. rewrite lookup_insert_ne in Hp by done.
      injection Hq as <-. by destruct (Hgone _ _ Hp).
    + rewrite lookup_insert_ne in Hp, Hq by done.
      apply lookup_delete_Some in Hp as [_ Hp].
      apply lookup_delete_Some in Hq as [_ Hq]. eauto.
  - rewrite sum_sizes_replace.
    rewrite (sum_sizes_ext _ h h') by (by intros).
    rewrite Hfs, Iu, (sum_sizes_delete f h _ a Hfa). f_equal.
    destruct (delete ("/" +:+ oname) f !! ("/" +:+ nname)) as [x|] eqn:E.
    + rewrite (sum_sizes_delete _ h _ x E).
      apply lookup_delete_Some in E as [_ E].
      destruct (root_slot nname x Hfree E) as [-> _].
      rewrite (fsize_dir h r nd); done.
    + by rewrite (delete_id _ _ E).
  - done.
  - intros p b m Hp Hm Hd. destruct (decide (b = r)) as [->|Hbr].
    + rewrite Hr' in Hm. injection Hm as <-. simpl in Hd. congruence.
    + rewrite Hother in Hm by done.
      destruct (decide (p = "/" +:+ nname)) as [->|Hne].
      * rewrite lookup_insert_eq in Hp. injection Hp as <-.
        assert (m = n) as -> by congruence. done.
      * rewrite lookup_insert_ne in Hp by done.
        apply lookup_delete_Some in Hp as [_ Hp]. by apply (In p b m).
  - intros p b m Hp Hm Hd.
    destruct (decide (p = "/" +:+ nname)) as [->|Hne].
    { rewrite lookup_insert_eq in Hp. injection Hp as <-.
      rewrite Hother in Hm by done. congruence. }
    rewrite lookup_insert_ne in Hp by done.
    apply lookup_delete_Some in Hp as [Hpo Hp].
    assert (b = r) as ->.
    { destruct (decide (b = r)) as [|Hbr]; [done|].
      rewrite Hother in Hm by done.
      by destruct (only_root_is_dir _ _ _ Hp Hm Hd) as (_ & ? & _). }
    rewrite Hr' in Hm. injection Hm as <-.
    assert (p = "/") as -> by (by apply (Ii p "/" r)).
    assert (nname <> "") as Hnname by (intros ->; by apply Hne).
    split; [done|]. split.
    + intros nm x. simpl. destruct (decide (nm = nname)) as [->|Hnm].
      * rewrite !lookup_insert_eq. intros [= <-]. done.
      * rewrite lookup_insert_ne by done. intros Hx.
        apply lookup_delete_Some in Hx as [Hnmo Hx].
        destruct (root_children nm x Hx) as [? Hfx]. split; [done|].
        rewrite lookup_insert_ne, lookup_delete_ne; [done| |];
          intros E; by apply root_join_inj in E.
    + intros q x Hq Hqr. simpl. destruct (decide (q = "/" +:+ nname)) as [->|Hq'].
      * rewrite lookup_insert_eq in Hq. injection Hq as <-.
        exists nname. by rewrite lookup_insert_eq.
      * rewrite lookup_insert_ne in Hq by done.
        apply lookup_delete_Some in Hq as [Hqo Hq].
        destruct (root_entries q x Hq Hqr) as (nm & -> & Hx). exists nm.
        split; [done|].
        rewrite lookup_insert_ne, lookup_delete_ne; [done| |]; by intros ->.
Qed.

End Root.
End StoreInv.

(** ** Splitting an absolute path *)

Lemma str_app_nil (t : string) : "" +:+ t = t.
Proof. reflexivity. Qed.

Lemma str_app_cons c (s t : string) : String c s +:+ t = String c (s +:+ t).
Proof. reflexivity. Qed.

Lemma cut_nonempty r : fst (PosixPath.cut (String "/" r)) <> "".
Proof. simpl. destruct (PosixPath.cut r) as [h t]. by destruct h. Qed.

Lemma cut_app p : fst (PosixPath.cut p) +:+ snd (PosixPath.cut p) = p.
Proof.
  induction p as [|c r IH]; [done|]. simpl.
  destruct (PosixPath.cut r) as [h t]. simpl in IH. destruct h.
  - rewrite str_app_nil in IH. subst t.
    destruct (PosixPath.is_slash c); simpl; by rewrite ?str_app_cons, ?str_app_nil.
  - simpl. rewrite str_app_cons. by rewrite IH.
Qed.

Lemma rstrip_slash_not_root h : PosixPath.rstrip_slash h <> "/".
Proof.
  destruct h as [|c r]; [done|]. simpl.
  destruct (PosixPath.rstrip_slash r) eqn:E; [|done].
  destruct (PosixPath.is_slash c) eqn:Ec; [done|]. by intros [= ->].
Qed.

Lemma rstrip_slash_empty h :
  PosixPath.rstrip_slash h = "" -> PosixPath.all_slashes h = true.
Proof.
  induction h as [|c r IH]; [done|]. simpl.
  destruct (PosixPath.rstrip_slash r) eqn:E; [|done].
  destruct (PosixPath.is_slash c); [|done]. intros _. by apply IH.
Qed.

(** The parent of an absolute path is the root only for [/name]. *)
Lemma split_root p name :
  absolute p -> _split p = ("/", name) -> p = "/" +:+ name.
Proof.
  destruct p as [|c r]; [done|]. simpl. intros -> H.
  unfold _split, PosixPath.split in H.
  pose proof (cut_nonempty r) as Hne. pose proof (cut_app (String "/" r)) as Happ.
  destruct (PosixPath.cut (String "/" r)) as [h t]. simpl in Hne, Happ.
  destruct h as [|c h]; [done|].
  destruct (PosixPath.all_slashes (String c h)) eqn:Hall.
  - injection H as -> -> ->. by rewrite <- Happ.
  - destruct (PosixPath.rstrip_slash (String c h)) eqn:E.
    + apply rstrip_slash_empty in E. congruence.
    + injection H as -> -> ->. by destruct (rstrip_slash_not_root (String c h)).
Qed.

(** ** Running the primitives *)

Lemma deref_run a s n : heap s !! a = Some n -> deref a s = (Ok n, s).
Proof. intros H. unfold deref, gets. by rewrite (obj_found _ _ _ H). Qed.

Lemma del_child_run a name s n c :
  heap s !! a = Some n -> children n !! name = Some c ->
  del_child a name s =
  (Ok tt, set_heap (alter (fun m => set_children (delete name (children m)) m) a
                      (heap s)) s).
Proof.
  intros Hn Hc. unfold del_child.
  rewrite (bind_ok _ _ _ _ _ (deref_run _ _ _ Hn)). by rewrite Hc.
Qed.

Lemma del_child_fails a name s n :
  heap s !! a = Some n -> children n !! name = None ->
  del_child a name s = (Raise KeyError, s).
Proof.
  intros Hn Hc. unfold del_child.
  rewrite (bind_ok _ _ _ _ _ (deref_run _ _ _ Hn)). by rewrite Hc.
Qed.

Lemma del_file_run path s a :
  files s !! path = Some a ->
  del_file path s = (Ok tt, set_files (delete path (files s)) s).
Proof. intros H. unfold del_file. by rewrite H. Qed.

Lemma bind_deref {B} a n (k : Node -> M B) s :
  heap s !! a = Some n -> bind (deref a) k s = k n s.
Proof. intros H. apply bind_ok. by apply deref_run. Qed.

Lemma bind_del_child {B} a name n c (k : unit -> M B) s :
  heap s !! a = Some n -> children n !! name = Some c ->
  bind (del_child a name) k s =
  k tt (set_heap (alter (fun m => set_children (delete name (children m)) m) a
                    (heap s)) s).
Proof. intros Hn Hc. apply bind_ok. by apply (del_child_run a name s n c). Qed.

Lemma bind_del_file {B} path a (k : unit -> M B) s :
  files s !! path = Some a ->
  bind (del_file path) k s = k tt (set_files (delete path (files s)) s).
Proof. intros H. apply bind_ok. by apply (del_file_run path s a). Qed.

(** ** The invariant and the operations *)

Lemma Inv_same_store s s' : same_store s s' -> Inv s -> Inv s'.
Proof.
  intros (Hc & Hu & _ & Hf & Hh & _). unfold Inv. by rewrite Hc, Hu, Hf, Hh.
Qed.

Lemma check_then_Inv {A} op path (k : M A) :
  (forall s, Inv s -> Inv (snd (k s))) ->
  forall s, Inv s -> Inv (snd ((_check_and_prompt op path ;;; k) s)).
Proof.
  intros Hk s HI. unfold bind.
  pose proof (check_same_store op path s) as Hs.
  destruct (_check_and_prompt op path s) as [[[]|e] s1]; simpl in *.
  - apply Hk. by apply (Inv_same_store s).
  - by apply (Inv_same_store s).
Qed.

Lemma Inv_live s p a : Inv s -> files s !! p = Some a -> exists n, heap s !! a = Some n.
Proof. intros HI Hp. by destruct (inv_live _ _ _ _ HI p a Hp) as [n Hn]; exists n. Qed.

(** The parent of an absolute path, when there is one, is the root. *)
Lemma ensure_parent_root s path :
  Inv s -> absolute path ->
  (exists e, _ensure_parent path s = (Raise e, s)) \/
  (exists r nd name,
     _ensure_parent path s = (Ok (r, name), s) /\
     files s !! "/" = Some r /\ heap s !! r = Some nd /\ is_dir nd = true /\
     path = "/" +:+ name).
Proof.
  intros HI Habs. unfold _ensure_parent.
  destruct (_split path) as [parent name] eqn:Hsp.
  destruct (files s !! parent) as [r|] eqn:Hr.
  - rewrite (bind_ok _ _ _ _ _ (get_found _ _ _ Hr)).
    destruct (Inv_live s parent r HI Hr) as [nd Hnd].
    rewrite (bind_ok _ _ _ _ _ (deref_run _ _ _ Hnd)).
    destruct (is_dir nd) eqn:Hd.
    + right. exists r, nd, name.
      destruct (inv_dir _ _ _ _ HI parent r nd Hr Hnd Hd) as [-> _].
      repeat split; try done. by apply split_root.
    + left. by eexists.
  - left. rewrite (bind_raise _ _ _ _ _ (get_missing _ _ Hr)). by eexists.
Qed.

Lemma fresh_heap (h : gmap addr Node) : h !! fresh (dom h) = None.
Proof. apply not_elem_of_dom. apply is_fresh. Qed.

Lemma touch_is_meta ts n :
  is_dir (set_ctime ts (set_mtime ts n)) = is_dir n /\
  size (set_ctime ts (set_mtime ts n)) = size n /\
  children (set_ctime ts (set_mtime ts n)) = children n.
Proof. done. Qed.

Lemma create_Inv path md s : absolute path -> Inv s -> Inv (snd (create path md s)).
Proof.
  intros Habs. revert s. unfold create. apply check_then_Inv. intros s HI.
  destruct (ensure_parent_root s path HI Habs)
    as [[e He] | (r & nd & name & He & Hr & Hnd & Hd & ->)].
  { by rewrite (bind_raise _ _ _ _ _ He). }
  rewrite (bind_ok _ _ _ _ _ He).
  rewrite (bind_ok _ _ _ _ _ (deref_run _ _ _ Hnd)).
  destruct (children nd !! name) as [c|] eqn:Hc; [done|].
  cbv beta iota delta [bind ret modify gets update now_ts new_Node touch_mc]. simpl.
  unfold Inv. simpl.
  apply StoreInv_alter_meta; [|apply touch_is_meta].
  by apply (StoreInv_create _ _ _ _ HI r nd); [..|apply fresh_heap| |].
Qed.

(** What a path other than [/] resolves to is a file under the root. *)
Lemma entry_under_root s p a n r nd name :
  Inv s -> files s !! "/" = Some r -> heap s !! r = Some nd -> is_dir nd = true ->
  files s !! p = Some a -> heap s !! a = Some n -> is_dir n = false ->
  p = "/" +:+ name ->
  children nd !! name = Some a /\ a <> r.
Proof.
  intros HI Hr Hnd Hd Hp Hn Hfile ->.
  assert (a <> r) as Har by (intros ->; congruence).
  split; [|done].
  destruct (root_entries _ _ _ _ HI r nd Hr Hnd Hd _ a Hp) as (nm & Heq & Hc).
  - intros E. rewrite E in Hp. congruence.
  - apply root_join_inj in Heq as <-. done.
Qed.

Lemma unlink_Inv path s : absolute path -> Inv s -> Inv (snd (unlink path s)).
Proof.
  intros Habs. revert s. unfold unlink. apply check_then_Inv. intros s HI.
  destruct (files s !! path) as [a|] eqn:Ha.
  2: { by rewrite (bind_raise _ _ _ _ _ (get_missing _ _ Ha)). }
  rewrite (bind_ok _ _ _ _ _ (get_found _ _ _ Ha)).
  destruct (Inv_live s path a HI Ha) as [n Hn].
  rewrite (bind_ok _ _ _ _ _ (deref_run _ _ _ Hn)).
  destruct (is_dir n) eqn:Hfile; [done|].
  destruct (ensure_parent_root s path HI Habs)
    as [[e He] | (r & nd & name & He & Hr & Hnd & Hd & Hpath)].
  { by rewrite (bind_raise _ _ _ _ _ He). }
  rewrite (bind_ok _ _ _ _ _ He).
  destruct (entry_under_root s path a n r nd name HI Hr Hnd Hd Ha Hn Hfile Hpath)
    as [Hc Har].
  rewrite (bind_del_child r name nd a) by done.
  rewrite (bind_del_file path a) by done.
  rewrite (bind_deref a n) by (simpl; by rewrite lookup_alter_ne).
  cbv beta iota delta [bind ret modify gets update now_ts touch_mc]. simpl.
  unfold Inv. simpl.
  apply StoreInv_alter_meta; [|apply touch_is_meta].
  subst path. by apply (StoreInv_remove _ _ _ _ HI r nd Hr Hnd Hd name a n).
Qed.

Lemma rmdir_Inv path s : absolute path -> Inv s -> Inv (snd (rmdir path s)).
Proof.
  intros Habs. revert s. unfold rmdir. apply check_then_Inv. intros s HI.
  destruct (files s !! path) as [a|] eqn:Ha.
  2: { by rewrite (bind_raise _ _ _ _ _ (get_missing _ _ Ha)). }
  rewrite (bind_ok _ _ _ _ _ (get_found _ _ _ Ha)).
  destruct (Inv_live s path a HI Ha) as [n Hn].
  rewrite (bind_ok _ _ _ _ _ (deref_run _ _ _ Hn)).
  destruct (is_dir n) eqn:Hdir; [|done]. simpl.
  case_bool_decide as Hempty; [|done]. simpl.
  destruct (ensure_parent_root s path HI Habs)
    as [[e He] | (r & nd & name & He & Hr & Hnd & Hd & Hpath)].
  { by rewrite (bind_raise _ _ _ _ _ He). }
  rewrite (bind_ok _ _ _ _ _ He).
  destruct (only_root_is_dir _ _ _ _ HI r nd Hr Hnd path a n Ha Hn Hdir)
    as (_ & -> & ->).
  rewrite (bind_raise _ _ _ _ _ (del_child_fails r name s nd Hnd
             ltac:(by rewrite Hempty, lookup_empty))).
  done.
Qed.

Lemma bind_assoc {A B C} (m : M A) (k : A -> M B) (k' : B -> M C) s :
  bind (bind m k) k' s = bind m (fun x => bind (k x) k') s.
Proof. unfold bind. by destruct (m s) as [[a|e] s1]. Qed.

Lemma bind_modify {B} f (k : unit -> M B) s : bind (modify f) k s = k tt (f s).
Proof. reflexivity. Qed.

Lemma bind_ret {A B} (a : A) (k : A -> M B) s : bind (ret a) k s = k a s.
Proof. reflexivity. Qed.

(** The second half of [rename]: the source leaves its name and takes the
    new one. *)
Lemma rename_tail_Inv s r nd oname nname a :
  Inv s -> files s !! "/" = Some r -> heap s !! r = Some nd -> is_dir nd = true ->
  children nd !! nname = None ->
  (forall x, children nd !! oname = Some x -> x = a) ->
  Inv (snd ((del_child r oname ;;;
             update r (fun n => set_children (<[nname := a]> (children n)) n) ;;;
             del_file ("/" +:+ oname) ;;;
             modify (fun s => set_files (<["/" +:+ nname := a]> (files s)) s) ;;;
             now <- now_ts ;;
             touch_mc r now ;;;
             touch_mc r now) s)).
Proof.
  intros HI Hr Hnd Hd Hfree Hsrc.
  destruct (children nd !! oname) as [x|] eqn:Hx.
  2: { by rewrite (bind_raise _ _ _ _ _ (del_child_fails r oname s nd Hnd Hx)). }
  assert (x = a) as -> by (by apply Hsrc).
  destruct (root_children _ _ _ _ HI r nd Hr Hnd Hd oname a Hx) as [_ Hfa].
  assert ("/" +:+ oname <> "/" +:+ nname) as Hpaths.
  { intros E. apply root_join_inj in E as ->. congruence. }
  rewrite (bind_del_child r oname nd a) by done.
  unfold update at 1. rewrite bind_modify.
  rewrite (bind_del_file ("/" +:+ oname) a) by done.
  cbv beta iota delta [bind ret modify gets update now_ts touch_mc]. simpl.
  unfold Inv. simpl.
  apply StoreInv_alter_meta; [|apply touch_is_meta].
  apply StoreInv_alter_meta; [|apply touch_is_meta].
  by apply (StoreInv_move _ _ _ _ HI r nd Hr Hnd Hd oname nname a).
Qed.

Lemma rename_Inv old new s :
  absolute old -> absolute new -> Inv s -> Inv (snd (rename old new s)).
Proof.
  intros Hold Hnew. revert s. unfold rename.
  apply check_then_Inv. apply check_then_Inv. intros s HI.
  destruct (files s !! old) as [a|] eqn:Ha.
  2: { by rewrite (bind_raise _ _ _ _ _ (get_missing _ _ Ha)). }
  rewrite (bind_ok _ _ _ _ _ (get_found _ _ _ Ha)).
  destruct (ensure_parent_root s old HI Hold)
    as [[e He] | (r & nd & oname & He & Hr & Hnd & Hd & ->)].
  { by rewrite (bind_raise _ _ _ _ _ He). }
  rewrite (bind_ok _ _ _ _ _ He).
  destruct (ensure_parent_root s new HI Hnew)
    as [[e He'] | (r' & nd' & nname & He' & Hr' & Hnd' & Hd' & ->)].
  { by rewrite (bind_raise _ _ _ _ _ He'). }
  rewrite (bind_ok _ _ _ _ _ He').
  assert (r' = r) as -> by congruence. assert (nd' = nd) as -> by congruence.
  rewrite (bind_deref r nd) by done.
  assert (forall x, children nd !! oname = Some x -> x = a) as Hsrc.
  { intros x Hx.
    destruct (root_children _ _ _ _ HI r nd Hr Hnd Hd oname x Hx) as [_ Hfx].
    congruence. }
  destruct (children nd !! nname) as [t|] eqn:Ht.
  - destruct (child_is_file _ _ _ _ HI r nd Hr Hnd Hd nname t Ht)
      as (Htr & tn & Htn & Hfile & Hpos).
    destruct (root_children _ _ _ _ HI r nd Hr Hnd Hd nname t Ht) as [Hnn Hft].
    rewrite bind_assoc. rewrite (bind_deref t tn) by done. rewrite Hfile.
    rewrite bind_assoc. rewrite (bind_del_child r nname nd t) by done.
    rewrite bind_assoc. rewrite (bind_del_file ("/" +:+ nname) t) by done.
    rewrite bind_assoc.
    rewrite (bind_deref t tn) by (simpl; by rewrite lookup_alter_ne).
    rewrite bind_modify.
    match goal with |- Inv (snd (_ ?st)) => set (s1 := st) end.
    assert (Inv s1) as HI1.
    { unfold Inv, s1. simpl.
      by apply (StoreInv_remove _ _ _ _ HI r nd Hr Hnd Hd nname t tn). }
    apply (rename_tail_Inv s1 r
             (set_children (delete nname (children nd)) nd) oname nname a HI1).
    + unfold s1. simpl. rewrite lookup_delete_ne; [done|].
      by rewrite root_join_root.
    + unfold s1. simpl. by rewrite lookup_alter_eq, Hnd.
    + done.
    + simpl. apply lookup_delete_eq.
    + simpl. intros x Hx. apply lookup_delete_Some in Hx as [_ Hx]. by apply Hsrc.
  - rewrite bind_ret. by apply (rename_tail_Inv s r nd).
Qed.

Lemma space_cases delta s :
  (_ensure_space_delta delta s = (Ok tt, s) /\
   (delta <= 0 \/ used s + delta <= capacity s)) \/
  _ensure_space_delta delta s = (Raise (FuseOSError ENOSPC), s).
Proof.
  unfold _ensure_space_delta.
  destruct (Z.leb_spec delta 0); [left; split; [done|lia]|].
  destruct (Z.ltb_spec (capacity s) (used s + delta)); [by right|].
  left. split; [done|lia].
Qed.

Lemma write_Inv path dat off s : Inv s -> Inv (snd (write path dat off s)).
Proof.
  revert s. unfold write. apply check_then_Inv. intros s HI.
  destruct (files s !! path) as [a|] eqn:Ha.
  2: { by rewrite (bind_raise _ _ _ _ _ (get_missing _ _ Ha)). }
  rewrite (bind_ok _ _ _ _ _ (get_found _ _ _ Ha)).
  destruct (Inv_live s path a HI Ha) as [n Hn].
  rewrite (bind_deref a n) by done.
  destruct (is_dir n) eqn:Hfile; [done|].
  pose proof (inv_nonneg _ _ _ _ HI path a n Ha Hn Hfile) as Hpos.
  pose proof (inv_cap _ _ _ _ HI) as Hcap.
  set (new_size := Z.max (size n) (off + PySeq.len dat)).
  destruct (space_cases (new_size - size n) s) as [[Hs Hfit]|Hs].
  2: { by rewrite (bind_raise _ _ _ _ _ Hs). }
  rewrite (bind_ok _ _ _ _ _ Hs).
  destruct (PySeq.len (data n) <? new_size);
    cbv beta iota delta [bind ret modify gets update now_ts]; simpl;
    unfold Inv; simpl;
    (eapply (StoreInv_update _ _ _ _ HI _ _ path a n);
     [ done | done | done
     | rewrite !lookup_alter_eq, Hn; reflexivity
     | done
     | simpl; lia
     | intros b Hb; by rewrite !lookup_alter_ne
     | simpl; lia
     | unfold new_size in *; lia ]).
Qed.

Lemma truncate_Inv path length s :
  0 <= length -> Inv s -> Inv (snd (truncate path length s)).
Proof.
  intros Hlen. revert s. unfold truncate. apply check_then_Inv. intros s HI.
  destruct (files s !! path) as [a|] eqn:Ha.
  2: { by rewrite (bind_raise _ _ _ _ _ (get_missing _ _ Ha)). }
  rewrite (bind_ok _ _ _ _ _ (get_found _ _ _ Ha)).
  destruct (Inv_live s path a HI Ha) as [n Hn].
  rewrite (bind_deref a n) by done.
  destruct (is_dir n) eqn:Hfile; [done|].
  pose proof (inv_nonneg _ _ _ _ HI path a n Ha Hn Hfile) as Hpos.
  pose proof (inv_cap _ _ _ _ HI) as Hcap.
  destruct (Z.ltb_spec length (size n)) as [Hshrink|Hge].
  - cbv beta iota delta [bind ret modify gets update now_ts]; simpl.
    unfold Inv; simpl.
    eapply (StoreInv_update _ _ _ _ HI _ _ path a n);
      [ done | done | done
      | rewrite !lookup_alter_eq, Hn; reflexivity
      | done
      | simpl; lia
      | intros b Hb; by rewrite !lookup_alter_ne
      | simpl; lia
      | lia ].
  - destruct (Z.ltb_spec (size n) length) as [Hgrow|Hsame].
    + rewrite bind_assoc.
      destruct (space_cases (length - size n) s) as [[Hs Hfit]|Hs].
      2: { by rewrite (bind_raise _ _ _ _ _ Hs). }
      rewrite (bind_ok _ _ _ _ _ Hs).
      cbv beta iota delta [bind ret modify gets update now_ts]; simpl.
      unfold Inv; simpl.
      eapply (StoreInv_update _ _ _ _ HI _ _ path a n);
        [ done | done | done
        | rewrite !lookup_alter_eq, Hn; reflexivity
        | done
        | simpl; lia
        | intros b Hb; by rewrite !lookup_alter_ne
        | simpl; lia
        | lia ].
    + cbv beta iota delta [bind ret modify gets update now_ts]; simpl.
      unfold Inv; simpl. by apply StoreInv_alter_meta.
Qed.

Lemma init_Inv cap ask_ scope e : 0 <= cap -> Inv (init cap ask_ scope e).
Proof.
  intros Hcap. unfold init, Inv.
  cbv beta iota delta [bind ret modify gets update now_ts new_Node]. simpl.
  set (a := fresh (dom (∅ : gmap addr Node))).
  set (root := mkNode _ _ _ _ _ _ _ _ _ _ _).
  split.
  - intros p b Hp. apply lookup_insert_Some in Hp as [[_ <-]|[_ Hp]]; [|done].
    rewrite lookup_insert_eq. by eexists.
  - intros p q b Hp Hq.
    apply lookup_insert_Some in Hp as [[<- _]|[_ Hp]]; [|done].
    apply lookup_insert_Some in Hq as [[<- _]|[_ Hq]]; done.
  - rewrite sum_sizes_insert by done.
    rewrite (fsize_dir _ a root) by (by rewrite ?lookup_insert_eq). done.
  - done.
  - intros p b n Hp Hn Hd.
    apply lookup_insert_Some in Hp as [[_ <-]|[_ Hp]]; [|done].
    rewrite lookup_insert_eq in Hn. injection Hn as <-. done.
  - intros p b n Hp Hn Hd.
    apply lookup_insert_Some in Hp as [[<- <-]|[_ Hp]]; [|done].
    rewrite lookup_insert_eq in Hn. injection Hn as <-.
    split; [done|]. split.
    + intros name c Hc. done.
    + intros q c Hq Hne. apply lookup_insert_Some in Hq as [[<- _]|[_ Hq]]; done.
Qed.

(** The operations that only read, or only write metadata. *)

Global Instance inv_kept_preorder : PreOrder inv_kept.
Proof.
  split.
  - intros s H. exact H.
  - intros s1 s2 s3 H1 H2 H. apply H2, H1, H.
Qed.

Ltac inv_prim :=
  first [ apply preserves_modify; [apply _|] | idtac ];
  intros s; unfold inv_kept, Inv; simpl; tauto.

Lemma now_ts_inv : preserves inv_kept now_ts.
Proof. inv_prim. Qed.

Lemma check_inv op path : preserves inv_kept (_check_and_prompt op path).
Proof. intros s HI. apply (Inv_same_store s); [apply check_same_store|exact HI]. Qed.

Lemma update_inv a g :
  (forall n, is_dir (g n) = is_dir n /\ size (g n) = size n /\
             children (g n) = children n) ->
  preserves inv_kept (update a g).
Proof. intros Hg s HI. unfold Inv. simpl. by apply StoreInv_alter_meta. Qed.

Ltac inv_step :=
  first [ pres_step | apply check_inv | apply now_ts_inv
        | (apply update_inv; done) | inv_prim ].

Lemma metadata_call_inv c :
  match c with
  | Access _ _ | Getattr _ | Readdir _ | Open _ _ | Read _ _ _
  | Utimens _ _ | Chmod _ _ | Chown _ _ _ | Statfs _ => True
  | _ => False
  end ->
  preserves inv_kept (call c).
Proof.
  destruct c; try done; intros _;
    unfold call, access, getattr, readdir, open, read, utimens, chmod, chown,
      statfs, log_info;
    repeat inv_step.
Qed.

Lemma step_Inv s c : accounting_call c -> Inv s -> Inv (step s c).
Proof.
  intros Hc HI. unfold step.
  assert (forall {A B} (f : A -> B) (m : M A) s, snd (fmap_M f m s) = snd (m s)) as Hsnd.
  { intros A B f m s0. unfold fmap_M, bind, ret. by destruct (m s0) as [[x|e] s1]. }
  destruct c; simpl in Hc; try done;
    try (match goal with
         | |- Inv (snd (call ?c ?s)) => by apply (metadata_call_inv c I s)
         end);
    simpl; rewrite Hsnd.
  - by apply rmdir_Inv.
  - by apply unlink_Inv.
  - destruct Hc. by apply rename_Inv.
  - by apply create_Inv.
  - by apply write_Inv.
  - destruct Hc. by apply truncate_Inv.
Qed.

Lemma run_Inv cs : forall s, Forall accounting_call cs -> Inv s -> Inv (run s cs).
Proof.
  induction cs as [|c cs IH]; intros s Hcs HI; [done|].
  apply Forall_cons in Hcs as [Hc Hcs]. simpl. apply IH; [done|].
  by apply step_Inv.
Qed.

(** C1. From a new store with a capacity that is not negative, after any
    sequence of create, write, truncate, unlink, rmdir and rename calls (and
    of any other call but mkdir) with absolute paths and lengths that are not
    negative, the counter [used] is the sum of the sizes of the file nodes
    and is at most [capacity].  A prefix of such a sequence is such a
    sequence, so this holds after every operation.  No two paths lead to the
    same node, so the sum over the path map counts every file node once. *)
Theorem used_is_total_size cap ask_ scope e cs :
  0 <= cap -> Forall accounting_call cs ->
  let s := run (init cap ask_ scope e) cs in
  used s = total_size s /\ used s <= capacity s /\
  (forall p q a, files s !! p = Some a -> files s !! q = Some a -> p = q).
Proof.
  intros Hcap Hcs s.
  assert (Inv s) as HI by (apply run_Inv; [done|by apply init_Inv]).
  split; [apply (inv_used _ _ _ _ HI)|].
  split; [apply (inv_cap _ _ _ _ HI)|apply (inv_inj _ _ _ _ HI)].
Qed.

Lemma used_is_total_size_witness :
  used store_f = total_size store_f /\ used store_f <= capacity store_f.
Proof.
  destruct (used_is_total_size 20 false "op" env0
              [Create "/f" 420; Write "/f" abc 0]) as (Hsum & Hcap & _).
  - lia.
  - repeat constructor.
  - split; [exact Hsum|exact Hcap].
Defined.

(** With [mkdir] in the sequence the counter can drift: [rename] of a
    directory leaves the paths of its files in the path map, and a file made
    again under such a path takes the place of the old one there. *)
Example accounting_breaks_with_mkdir :
  used store_remade = 3 /\ total_size store_remade = 0.
Proof. vm_compute. done. Qed.

(** Outside the contract of the binding the accounting is not kept either:
    a relative path is a second path for a name of the root, and a negative
    length makes a size negative. *)
Example accounting_needs_absolute_paths :
  used store_relative = 3 /\ total_size store_relative = 0.
Proof. vm_compute. done. Qed.

Example accounting_needs_lengths :
  used store_negative = 25 /\ capacity store_negative = 20.
Proof. vm_compute. done. Qed.

(** * [rename] onto an existing name *)

(** Where the path map and the child tables agree and the two names differ,
    [rename] does what the specification says: a file under the new name is
    replaced and its bytes are given back, a directory under the new name
    makes the call fail with EISDIR before any change. *)

Section RenameOntoTarget.
Variables (old new : string) (s : FS).
Variables (a : addr) (n : Node).
Variables (po oname pn nname : string).
Variables (ro rn t : addr) (ndo ndn tn : Node).

Hypothesis Hau1 : authorized "rename" old s.
Hypothesis Hau2 : authorized "rename" new (after_check "rename" old s).
Hypothesis Hold : resolves s old a n.
Hypothesis Hso : _split old = (po, oname).
Hypothesis Hpo : resolves s po ro ndo.
Hypothesis Hdo : is_dir ndo = true.
Hypothesis Hsn : _split new = (pn, nname).
Hypothesis Hpn : resolves s pn rn ndn.
Hypothesis Hdn : is_dir ndn = true.
Hypothesis Htarget : children ndn !! nname = Some t.
Hypothesis Htn : heap s !! t = Some tn.

Let s2 := after_check "rename" new (after_check "rename" old s).

Lemma rename_checked_store : same_store s s2.
Proof.
  etrans; [apply (after_check_store "rename" old s)|].
  apply (after_check_store "rename" new).
Qed.

Lemma rename_onto_directory :
  is_dir tn = true ->
  rename old new s = (Raise (FuseOSError EISDIR), s2) /\ same_store s s2.
Proof.
  intros Hdir. split; [|apply rename_checked_store].
  destruct rename_checked_store as (_&_&_&Hf&Hh&_).
  destruct Hold as [Hfa Hha], Hpo as [Hfo Hho], Hpn as [Hfn Hhn].
  unfold rename.
  rewrite (bind_ok _ _ _ _ _ (check_split _ _ _ Hau1)).
  rewrite (bind_ok _ _ _ _ _ (check_split _ _ _ Hau2)). fold s2.
  rewrite (bind_ok _ _ _ a s2) by (apply get_found; by rewrite Hf).
  unfold _ensure_parent. rewrite Hso, Hsn.
  rewrite bind_assoc.
  rewrite (bind_ok _ _ _ ro s2) by (apply get_found; by rewrite Hf).
  rewrite bind_assoc, (bind_deref ro ndo) by (by rewrite Hh).
  rewrite Hdo, bind_ret.
  rewrite bind_assoc.
  rewrite (bind_ok _ _ _ rn s2) by (apply get_found; by rewrite Hf).
  rewrite bind_assoc, (bind_deref rn ndn) by (by rewrite Hh).
  rewrite Hdn, bind_ret.
  rewrite (bind_deref rn ndn) by (by rewrite Hh).
  rewrite Htarget. rewrite bind_assoc.
  rewrite (bind_deref t tn) by (by rewrite Hh).
  by rewrite Hdir.
Qed.

Lemma rename_over_file :
  is_dir tn = false -> is_Some (files s !! new) -> old <> new ->
  (ro = rn -> oname <> nname) -> is_Some (children ndo !! oname) ->
  a <> ro -> a <> rn ->
  exists s',
    rename old new s = (Ok tt, s') /\
    used s' = used s - size tn /\
    resolves s' new a n /\ files s' !! old = None /\
    (exists ndn', heap s' !! rn = Some ndn' /\ children ndn' !! nname = Some a) /\
    (exists ndo', heap s' !! ro = Some ndo' /\ children ndo' !! oname = None).
Proof.
  intros Hfile [t' Hnew] Hne Hslot [x Hx] Haro Harn.
  destruct rename_checked_store as (_&Hu&_&Hf&Hh&_).
  destruct Hold as [Hfa Hha], Hpo as [Hfo Hho], Hpn as [Hfn Hhn].
  assert (t <> rn) as Htrn by (intros ->; congruence).
  assert (t <> ro) as Htro by (intros ->; congruence).
  unfold rename.
  rewrite (bind_ok _ _ _ _ _ (check_split _ _ _ Hau1)).
  rewrite (bind_ok _ _ _ _ _ (check_split _ _ _ Hau2)). fold s2.
  rewrite (bind_ok _ _ _ a s2) by (apply get_found; by rewrite Hf).
  unfold _ensure_parent. rewrite Hso, Hsn.
  rewrite bind_assoc.
  rewrite (bind_ok _ _ _ ro s2) by (apply get_found; by rewrite Hf).
  rewrite bind_assoc, (bind_deref ro ndo) by (by rewrite Hh).
  rewrite Hdo, bind_ret.
  rewrite bind_assoc.
  rewrite (bind_ok _ _ _ rn s2) by (apply get_found; by rewrite Hf).
  rewrite bind_assoc, (bind_deref rn ndn) by (by rewrite Hh).
  rewrite Hdn, bind_ret.
  rewrite (bind_deref rn ndn) by (by rewrite Hh).
  rewrite Htarget. rewrite bind_assoc.
  rewrite (bind_deref t tn) by (by rewrite Hh).
  rewrite Hfile.
  rewrite bind_assoc, (bind_del_child rn nname ndn t) by (done || by rewrite Hh).
  rewrite bind_assoc, (bind_del_file new t') by (simpl; by rewrite Hf).
  rewrite bind_assoc.
  rewrite (bind_deref t tn) by (simpl; by rewrite lookup_alter_ne, Hh).
  rewrite bind_modify.
  destruct (decide (ro = rn)) as [Heq|Hdiff].
  - subst rn. assert (ndn = ndo) as -> by congruence.
    specialize (Hslot eq_refl).
    rewrite (bind_del_child ro oname
               (set_children (delete nname (children ndo)) ndo) x).
    2: { simpl. by rewrite lookup_alter_eq, Hh, Hho. }
    2: { simpl. by rewrite lookup_delete_ne. }
    unfold update at 1. rewrite bind_modify.
    rewrite (bind_del_file old a).
    2: { simpl. by rewrite lookup_delete_ne, Hf. }
    cbv beta iota delta [bind ret modify gets update now_ts touch_mc]. simpl.
    eexists. split; [reflexivity|]. unfold resolves. simpl.
    rewrite !lookup_insert_eq, !lookup_alter_ne, !lookup_alter_eq by done.
    rewrite lookup_insert_ne, lookup_delete_eq, Hh, Hha, Hho by done. simpl.
    split; [lia|]. split; [done|]. split; [done|]. split.
    + eexists. split; [reflexivity|]. simpl. apply lookup_insert_eq.
    + eexists. split; [reflexivity|]. simpl.
      rewrite lookup_insert_ne by done. apply lookup_delete_eq.
  - rewrite (bind_del_child ro oname ndo x).
    2: { simpl. by rewrite lookup_alter_ne, Hh. }
    2: { done. }
    unfold update at 1. rewrite bind_modify.
    rewrite (bind_del_file old a).
    2: { simpl. by rewrite lookup_delete_ne, Hf. }
    cbv beta iota delta [bind ret modify gets update now_ts touch_mc]. simpl.
    eexists. split; [reflexivity|]. unfold resolves. simpl.
    assert (rn <> ro) as Hdiff' by congruence.
    assert (ro <> a /\ rn <> a) as [Haro' Harn'] by (split; congruence).
    repeat first [ rewrite lookup_alter_eq | rewrite lookup_alter_ne by done
                 | rewrite lookup_insert_eq
                 | rewrite lookup_insert_ne by done
                 | rewrite lookup_delete_eq ].
    rewrite Hh, Hha, Hhn, Hho. simpl.
    split; [lia|]. split; [done|]. split; [done|]. split.
    + eexists. split; [reflexivity|]. simpl. apply lookup_insert_eq.
    + eexists. split; [reflexivity|]. simpl. apply lookup_delete_eq.
Qed.

End RenameOntoTarget.

(** C4. Renaming a file onto itself: the target branch removes the file
    from its parent and from the path map and gives its bytes back, then
    [del old_parent.children[old_name]] raises [KeyError]; the path no longer
    resolves. *)
Theorem rename_onto_itself_loses_the_file :
  files store_f !! "/f" = Some 1%nat /\
  is_dir (obj 1%nat store_f) = false /\
  data (obj 1%nat store_f) = abc /\
  used store_f = 3 /\
  fst (call (Rename "/f" "/f") store_f) = Raise KeyError /\
  files (step store_f (Rename "/f" "/f")) !! "/f" = None /\
  children (obj 0%nat (step store_f (Rename "/f" "/f"))) !! "f" = None /\
  used (step store_f (Rename "/f" "/f")) = 0.
Proof. vm_compute. repeat split. Qed.


(** * Link counts *)

(** C6. Moving the directory [/a/d] to [/b/d]: [rename] does not touch any
    link count, so [/a] keeps the count 3 with no child directory left and
    [/b] keeps the count 2 with one child directory. *)
Theorem rename_leaves_link_counts :
  let s' := step store_dirs (Rename "/a/d" "/b/d") in
  fst (call (Rename "/a/d" "/b/d") store_dirs) = Ok VNone /\
  link_count_ok store_dirs (obj 1%nat store_dirs) /\
  link_count_ok store_dirs (obj 2%nat store_dirs) /\
  resolves s' "/a" 1%nat (obj 1%nat s') /\
  is_dir (obj 1%nat s') = true /\
  nlink (obj 1%nat s') = 3 /\ child_dirs s' (obj 1%nat s') = [] /\
  resolves s' "/b" 2%nat (obj 2%nat s') /\
  is_dir (obj 2%nat s') = true /\
  nlink (obj 2%nat s') = 2 /\ child_dirs s' (obj 2%nat s') = [("d", 3%nat)] /\
  ~ link_count_ok s' (obj 1%nat s') /\
  ~ link_counts_ok s'.
Proof.
  assert (~ link_count_ok (step store_dirs (Rename "/a/d" "/b/d"))
            (obj 1%nat (step store_dirs (Rename "/a/d" "/b/d")))) as Hbad.
  { vm_compute. discriminate. }
  cbv zeta.
  do 11 (split; [first [exact Hbad | vm_compute; repeat constructor]|]).
  split; [exact Hbad|].
  intros Hall. apply Hbad.
  apply (Hall "/a" 1%nat); [|vm_compute; reflexivity].
  vm_compute; repeat constructor.
Qed.


(** * Metadata operations *)

(** [chmod] keeps the bits of the mode above the permission bits. *)
Lemma chmod_keeps_type m d :
  Z.land (Z.lor (Z.land m (Z.lnot PERM_BITS)) (Z.land d PERM_BITS)) (Z.lnot PERM_BITS)
  = Z.land m (Z.lnot PERM_BITS).
Proof.
  rewrite Z.land_lor_distr_l, <- !Z.land_assoc, Z.land_diag, Z.land_lnot_diag.
  by rewrite Z.land_0_r, Z.lor_0_r.
Qed.


(** The three operations change nothing but metadata of the node; [chmod]
    and [chown] set the change time, [utimens] leaves it. *)

Section Metadata.
Variables (path : string) (s : FS) (a : addr) (n : Node).
Hypothesis Hres : resolves s path a n.

Lemma utimens_effect times :
  authorized "utimens" path s ->
  exists s' n',
    utimens path times s = (Ok tt, s') /\ metadata_frame s s' path a n n' /\
    ctime n' = ctime n.
Proof.
  intros Hau.
  pose proof (after_check_resolves "utimens" path s _ _ _ Hres) as [Hf1 Hh1].
  destruct (after_check_store "utimens" path s) as (Hcap&Hused&_&Hfiles&Hheap&_).
  unfold utimens.
  rewrite (bind_ok _ _ _ _ _ (check_split _ _ _ Hau)).
  rewrite (bind_ok _ _ _ _ _ (get_found _ _ _ Hf1)).
  destruct times as [[t1 t2]|];
    cbv beta iota delta [bind ret modify gets update now_ts]; simpl;
    (eexists _, _; split; [reflexivity|]; unfold metadata_frame, resolves; simpl;
     rewrite !lookup_alter_eq, Hh1; simpl;
     repeat split; try done; try congruence;
     intros b Hb; rewrite !lookup_alter_ne by done; congruence).
Qed.

Lemma chmod_effect md :
  authorized "chmod" path s ->
  exists s' n',
    chmod path md s = (Ok 0, s') /\ metadata_frame s s' path a n n' /\
    Z.land (mode n') (Z.lnot PERM_BITS) = Z.land (mode n) (Z.lnot PERM_BITS) /\
    ctime n' = clock (env (after_check "chmod" path s))
                 (ticks (env (after_check "chmod" path s))).
Proof.
  intros Hau.
  pose proof (after_check_resolves "chmod" path s _ _ _ Hres) as [Hf1 Hh1].
  destruct (after_check_store "chmod" path s) as (Hcap&Hused&_&Hfiles&Hheap&_).
  unfold chmod.
  rewrite (bind_ok _ _ _ _ _ (check_split _ _ _ Hau)).
  rewrite (bind_ok _ _ _ _ _ (get_found _ _ _ Hf1)).
  cbv beta iota delta [bind ret modify gets update now_ts]; simpl.
  eexists _, _; split; [reflexivity|]; unfold metadata_frame, resolves; simpl.
  rewrite !lookup_alter_eq, Hh1; simpl.
  repeat split; try done; try congruence; try apply chmod_keeps_type.
  intros b Hb; rewrite !lookup_alter_ne by done; congruence.
Qed.

Lemma chown_effect u g :
  authorized "chown" path s ->
  exists s' n',
    chown path u g s = (Ok 0, s') /\ metadata_frame s s' path a n n' /\
    ctime n' = clock (env (after_check "chown" path s))
                 (ticks (env (after_check "chown" path s))).
Proof.
  intros Hau.
  pose proof (after_check_resolves "chown" path s _ _ _ Hres) as [Hf1 Hh1].
  destruct (after_check_store "chown" path s) as (Hcap&Hused&_&Hfiles&Hheap&_).
  unfold chown.
  rewrite (bind_ok _ _ _ _ _ (check_split _ _ _ Hau)).
  rewrite (bind_ok _ _ _ _ _ (get_found _ _ _ Hf1)).
  cbv beta iota delta [bind ret modify gets update now_ts]; simpl.
  eexists _, _; split; [reflexivity|]; unfold metadata_frame, resolves; simpl.
  rewrite !lookup_alter_eq, Hh1; simpl.
  repeat split; try done; try congruence.
  intros b Hb; rewrite !lookup_alter_ne by done; congruence.
Qed.

End Metadata.

(** C9. [utimens] sets the access and modification times and leaves the
    change time as it was, while [chmod] and [chown] on the same node set it
    to the reading of the clock. *)
Theorem utimens_leaves_ctime :
  let s1 := step store_f (Utimens "/f" (Some (500, 600))) in
  let s2 := step store_f (Utimens "/f" None) in
  ctime (obj 1%nat store_f) = 101 /\
  clock (env store_f) (ticks (env store_f)) = 104 /\
  fst (call (Utimens "/f" (Some (500, 600))) store_f) = Ok VNone /\
  atime (obj 1%nat s1) = 500 /\ mtime (obj 1%nat s1) = 600 /\
  ctime (obj 1%nat s1) = 101 /\
  fst (call (Utimens "/f" None) store_f) = Ok VNone /\
  atime (obj 1%nat s2) = 104 /\ mtime (obj 1%nat s2) = 105 /\
  ctime (obj 1%nat s2) = 101 /\
  ctime (obj 1%nat (step store_f (Chmod "/f" 384))) = 104 /\
  ctime (obj 1%nat (step store_f (Chown "/f" 0 0))) = 104.
Proof. vm_compute. repeat split. Qed.

